(** * BloodLinkBd socket server: a shallow embedding of the chat server

    The development follows the latest revision of the server script (the one
    with [chat_joined], the auto-join of the receiver and the room-wide
    [message_delivered]); the two Mongoose schemas [Chat] and [Message] give
    the stored documents.

    Conventions of the embedding.
    - Every handler runs in a small state/writer/exception monad [M]: the
      state is the whole server (the two collections, the presence map and
      the connected sockets), the writer collects the emitted socket events
      and an exception stands for a JavaScript [throw] (a rejected ObjectId
      cast, a [TypeError]) that reaches the handler's [catch].
    - A handler run through [run] is executed without another handler
      interleaved at its [await]s; [step] and [steps] handle events that
      way.  The handlers cut at their [await]s ([arrive], [move], [moves])
      give the event loop in which a handler may start or resume while
      others are suspended; [steps_are_moves] links the two.  The calls of
      [run_schedule] split the find-then-create prefix alone.
    - Identifiers travel as strings.  [oid_ok] says whether the ObjectId
      constructor accepts a string and [oid_str] is the string the resulting
      ObjectId prints as, the spelling that is stored and sent back: an
      id given in upper-case hexadecimal is accepted and prints in lower
      case.  A payload string compared with stored ids is compared as it
      was spelled.  [new_oid] is the generator of fresh [_id]s of the
      driver. *)

From Stdlib Require Import ZArith NArith List String Ascii Bool Lia.
From Stdlib Require Import Sorted HexadecimalString HexadecimalNat.
From stdpp Require Import base gmap strings list.

Local Open Scope Z_scope.

(** ** JavaScript strings and [String.prototype.trim] *)

(** A message body is a sequence of UTF-16 code units. *)
Definition jsstring := list N.

(** ECMAScript [WhiteSpace] and [LineTerminator] code points, the ones
    [trim] strips. *)
Definition isWhiteSpace (c : N) : bool :=
  (N.eqb c 0x09 || N.eqb c 0x0A || N.eqb c 0x0B || N.eqb c 0x0C ||
   N.eqb c 0x0D || N.eqb c 0x20 || N.eqb c 0xA0 || N.eqb c 0x1680 ||
   (N.leb 0x2000 c && N.leb c 0x200A) ||
   N.eqb c 0x2028 || N.eqb c 0x2029 || N.eqb c 0x202F || N.eqb c 0x205F ||
   N.eqb c 0x3000 || N.eqb c 0xFEFF)%bool.

Fixpoint trimStart (s : jsstring) : jsstring :=
  match s with
  | [] => []
  | c :: r => if isWhiteSpace c then trimStart r else s
  end.

Definition trimEnd (s : jsstring) : jsstring := rev (trimStart (rev s)).

Definition trim (s : jsstring) : jsstring := trimEnd (trimStart s).

(** Code units of an ASCII literal, for readable examples. *)
Fixpoint units (s : string) : jsstring :=
  match s with
  | EmptyString => []
  | String a r => N_of_ascii a :: units r
  end.

(** The [text] field of a [send_message] payload: absent ([undefined] or
    [null]), a string, or some other value, which has no [trim] method. *)
Inductive JsText : Type :=
| TextMissing
| TextStr (s : jsstring)
| TextOther.

(** Truthiness of a JavaScript string: every string but the empty one. *)
Definition truthy (s : string) : bool := negb (String.eqb s "").

(** ** Stored documents *)

Inductive Status : Type := sent | delivered | read.

Definition status_rank (st : Status) : nat :=
  match st with sent => 0 | delivered => 1 | read => 2 end.

Definition status_le (a b : Status) : Prop := (status_rank a <= status_rank b)%nat.

(** [chatSchema]: the fields the handlers touch.  [isGroup], [groupName],
    [groupAdmin], [unreadCount], [isArchived] keep their defaults. *)
Record Chat : Type := mkChat {
  chat_id : string;
  participants : list string;
  lastMessage : option string
}.

(** [messageSchema]; [type], [mediaUrl] and [isDeleted] keep their defaults.
    [createdAt] is the timestamp Mongoose stamps on creation. *)
Record Message : Type := mkMessage {
  msg_id : string;
  chatId : string;
  senderId : string;
  text : jsstring;
  status : Status;
  readBy : list string;
  createdAt : Z
}.

(** Modelled from the spec: models/user.js is not among the sources; a user
    document is reduced to its [_id] and the two display fields that
    [populate("senderId", "fullName avatar")] selects. *)
Record User : Type := mkUser {
  user_id : string;
  fullName : string;
  avatar : string
}.

(** A message after [populate]: the document, with [senderId] resolved to
    the user document ([None] is the [null] left for an unknown sender). *)
Record PopulatedMessage : Type := mkPopulated {
  pm_doc : Message;
  pm_sender : option User
}.

(** ** Sockets, rooms and emitted events *)

Definition SocketId := string.

Record Socket : Type := mkSocket {
  userId : option string;          (* socket.userId, [None] while undefined *)
  rooms : gset string              (* socket.rooms *)
}.

Inductive Target : Type :=
| ToSocket (sid : SocketId)                      (* socket.emit *)
| ToAll                                          (* io.emit *)
| ToRoom (room : string)                         (* io.to(room).emit *)
| ToRoomExcept (room : string) (sid : SocketId). (* socket.to(room).emit *)

Inductive ServerEvent : Type :=
| user_status (uid : string) (online : bool)
| chat_joined (cid : string)
| chat_history (ms : list PopulatedMessage)
| error_event (message : string)
| receive_message (pm : option PopulatedMessage)
| message_delivered (messageId : string)
| user_typing (uid : string)
| user_stopped_typing (uid : string)
| message_read (messageId : string) (uid : string)
| message_error (error : string).

Definition Emit : Type := Target * ServerEvent.

(** The server: the two collections in natural (insertion) order, the user
    collection read by [populate], the [onlineUsers] map, the sockets of
    [io.sockets.sockets] and the number of [_id]s generated so far. *)
Record State : Type := mkState {
  chats : list Chat;
  messages : list Message;
  users : list User;
  onlineUsers : gmap string SocketId;
  sockets : gmap SocketId Socket;
  nextOid : nat
}.

Definition initial (us : list User) : State :=
  mkState [] [] us ∅ ∅ 0.

(** ** The handler monad *)

(** A computation runs from a state and gives a result ([None] when an
    exception is in flight), the state reached and the events emitted, in
    order.  Effects made before a [throw] stay: nothing is rolled back. *)
Definition M (A : Type) : Type := State -> option A * State * list Emit.

Definition ret {A} (a : A) : M A := fun s => (Some a, s, []).

Definition bind {A B} (m : M A) (f : A -> M B) : M B :=
  fun s =>
    match m s with
    | (Some a, s1, o1) =>
        match f a s1 with (r, s2, o2) => (r, s2, o1 ++ o2) end
    | (None, s1, o1) => (None, s1, o1)
    end.

Definition throw {A} : M A := fun s => (None, s, []).

(** [try { body } catch (err) { handler }] *)
Definition try_catch {A} (body handler : M A) : M A :=
  fun s =>
    match body s with
    | (Some a, s1, o1) => (Some a, s1, o1)
    | (None, s1, o1) =>
        match handler s1 with (r, s2, o2) => (r, s2, o1 ++ o2) end
    end.

Definition get : M State := fun s => (Some s, s, []).
Definition emit (t : Target) (e : ServerEvent) : M unit :=
  fun s => (Some tt, s, [(t, e)]).

#[global] Instance M_ret : MRet M := @ret.
#[global] Instance M_bind : MBind M := fun A B f m => bind m f.

(** What a handler leaves behind: the state and the emitted events. *)
Definition run {A} (m : M A) (s : State) : State * list Emit :=
  match m s with (_, s', o) => (s', o) end.

(** State updates, one field at a time. *)
Definition set_chats (f : list Chat -> list Chat) (s : State) : State :=
  mkState (f (chats s)) (messages s) (users s) (onlineUsers s) (sockets s) (nextOid s).
Definition set_messages (f : list Message -> list Message) (s : State) : State :=
  mkState (chats s) (f (messages s)) (users s) (onlineUsers s) (sockets s) (nextOid s).
Definition set_onlineUsers (f : gmap string SocketId -> gmap string SocketId)
    (s : State) : State :=
  mkState (chats s) (messages s) (users s) (f (onlineUsers s)) (sockets s) (nextOid s).
Definition set_sockets (f : gmap SocketId Socket -> gmap SocketId Socket)
    (s : State) : State :=
  mkState (chats s) (messages s) (users s) (onlineUsers s) (f (sockets s)) (nextOid s).
Definition bump_oid (s : State) : State :=
  mkState (chats s) (messages s) (users s) (onlineUsers s) (sockets s) (S (nextOid s)).

Definition modify (f : State -> State) : M unit := fun s => (Some tt, f s, []).

(** Who receives an emit, in a given state of the rooms. *)
Definition recipients (s : State) (t : Target) : gset SocketId :=
  match t with
  | ToSocket sid => if bool_decide (is_Some (sockets s !! sid)) then {[ sid ]} else ∅
  | ToAll => dom (sockets s)
  | ToRoom room => dom (filter (fun kv => room ∈ rooms kv.2) (sockets s))
  | ToRoomExcept room sid =>
      dom (filter (fun kv => room ∈ rooms kv.2) (sockets s)) ∖ {[ sid ]}
  end.

(** ** Payloads of the client events *)

Record JoinData : Type := mkJoin {
  jd_senderId : string;
  jd_receiverId : string
}.

Record AcceptData : Type := mkAccept {
  ad_chatId : string;
  ad_userId : string
}.

(** [sd_chatId] is [None] when the payload has no [chatId]. *)
Record SendData : Type := mkSend {
  sd_senderId : string;
  sd_receiverId : string;
  sd_text : JsText;
  sd_chatId : option string
}.

Record TypingData : Type := mkTyping {
  td_chatId : string;
  td_userId : string
}.

Record ReadData : Type := mkRead {
  rd_messageId : string;
  rd_userId : string
}.

(** ** Client events *)

Inductive ClientEvent : Type :=
| Connection (sid : SocketId)
| UserOnline (sid : SocketId) (uid : string)
| JoinChat (sid : SocketId) (data : JoinData)
| AcceptChat (sid : SocketId) (data : AcceptData)
| SendMessage (now : Z) (sid : SocketId) (data : SendData)
| Typing (sid : SocketId) (data : TypingData)
| StopTyping (sid : SocketId) (data : TypingData)
| MarkAsRead (sid : SocketId) (data : ReadData)
| Disconnect (sid : SocketId).

Definition event_socket (e : ClientEvent) : SocketId :=
  match e with
  | Connection sid | UserOnline sid _ | JoinChat sid _ | AcceptChat sid _
  | SendMessage _ sid _ | Typing sid _ | StopTyping sid _ | MarkAsRead sid _
  | Disconnect sid => sid
  end.

(** ** Pending resolutions *)

(** The find-then-create sequence has two [await]s; another handler may run
    between them.  A call is one pending resolution, with the point it has
    reached; a schedule names, step by step, the call that advances. *)
Inductive Pc : Type :=
| AtFind                 (* about to await ChatModel.findOne *)
| AtCreate               (* findOne gave null; about to await ChatModel.create *)
| Resolved (c : Chat)    (* chat in hand *)
| Failed.                (* the catch branch was taken *)

Record Call : Type := mkCall {
  call_sender : string;
  call_receiver : string;
  call_pc : Pc
}.

Definition start (sender receiver : string) : Call :=
  mkCall sender receiver AtFind.

(** ** Handlers in progress *)

(** An [async] handler gives the event loop back at every [await], and
    another handler may run before it goes on.  A [Proc] is a handler in
    progress: finished, or suspended at an [await], with what it does when
    it is resumed (the awaited store operation, then its code up to the
    next [await]). *)
#[local] Unset Elimination Schemes.
Inductive Proc : Type :=
| Done
| Await (k : State -> option Proc * State * list Emit).
#[local] Set Elimination Schemes.

(** What the event loop does next: a client event arrives, or a suspended
    handler is resumed. *)
Inductive Move : Type :=
| Arrive (e : ClientEvent)
| Resume (i : nat).

(** The server with its handlers in progress, in order of arrival. *)
Definition World : Type := State * list Proc.

(** ** A concrete driver, for the examples *)

(** The strings the ObjectId constructor of the examples accepts: 24
    hexadecimal digits, in either case. *)
Definition is_hex_digit (a : ascii) : bool :=
  let n := nat_of_ascii a in
  ((48 <=? n)%nat && (n <=? 57)%nat) || ((97 <=? n)%nat && (n <=? 102)%nat) ||
  ((65 <=? n)%nat && (n <=? 70)%nat).

Fixpoint all_hex (s : string) : bool :=
  match s with
  | EmptyString => true
  | String a r => is_hex_digit a && all_hex r
  end.

Definition hex_oid (s : string) : bool :=
  (String.length s =? 24)%nat && all_hex s.

(** [id.toString()]: an ObjectId prints in lower case, however the string
    it was built from was spelled. *)
Definition lower_digit (a : ascii) : ascii :=
  let n := nat_of_ascii a in
  if ((65 <=? n)%nat && (n <=? 70)%nat) then ascii_of_nat (n + 32) else a.

Fixpoint lower_hex (s : string) : string :=
  match s with
  | EmptyString => EmptyString
  | String a r => String (lower_digit a) (lower_hex r)
  end.

Fixpoint zeros (k : nat) (s : string) : string :=
  match k with
  | O => s
  | S k' => String "0" (zeros k' s)
  end.

(** A counter spelled in hexadecimal, padded to 24 digits. *)
Definition oid_of_nat (n : nat) : string :=
  let d := NilEmpty.string_of_uint (Nat.to_hex_uint n) in
  zeros (24 - String.length d) d.

Definition alice : string := "aaaaaaaaaaaaaaaaaaaaaaaa".
Definition bob : string := "bbbbbbbbbbbbbbbbbbbbbbbb".
Definition carol : string := "cccccccccccccccccccccccc".

Definition directory : list User :=
  [ mkUser alice "Alice" "a.png"; mkUser bob "Bob" "b.png";
    mkUser carol "Carol" "c.png" ].

Definition hi : jsstring := units "hi".

(** The number a canonical spelling stands for. *)
Definition oid_value (s : string) : option nat :=
  Nat.of_hex_uint <$> NilEmpty.uint_of_string s.

(** ** Scenarios *)

(** The first three [_id]s of the concrete driver. *)
Definition chat0 : string := oid_of_nat 0.
Definition msg1 : string := oid_of_nat 1.

Definition alice_to_bob : SendData := mkSend alice bob (TextStr hi) None.

(** Alice, connected on [s1], writes to Bob, who is not connected. *)
Definition alice_writes : list ClientEvent :=
  [ Connection "s1"; UserOnline "s1" alice; SendMessage 10 "s1" alice_to_bob ].

(** Carol, who is no participant of the chat, acknowledges Alice's message. *)
Definition carol_reads : ReadData := mkRead msg1 carol.

(** Alice announces herself on [s1], then on [s2]. *)
Definition two_devices : list ClientEvent :=
  [ Connection "s1"; UserOnline "s1" alice;
    Connection "s2"; UserOnline "s2" alice ].


(** A well-formed id that no chat carries. *)
Definition ghost : string := "0123456789abcdef01234567".

Definition alice_to_ghost : SendData := mkSend alice bob (TextStr hi) (Some ghost).

(** Alice on [s1], Bob on [s2]. *)
Definition both_online : list ClientEvent :=
  [ Connection "s1"; UserOnline "s1" alice;
    Connection "s2"; UserOnline "s2" bob ].

(** A socket that announced Bob and then Carol leaves Bob's entry behind
    when it disconnects. *)
Definition bob_left_behind : list ClientEvent :=
  [ Connection "s1"; UserOnline "s1" alice;
    Connection "s2"; UserOnline "s2" bob; UserOnline "s2" carol;
    Disconnect "s2" ].

(** Bob connects, opens the chat, reads Alice's message and answers. *)
Definition bob_catches_up : list ClientEvent :=
  [ Connection "s2"; UserOnline "s2" bob;
    JoinChat "s2" (mkJoin bob alice);
    MarkAsRead "s2" (mkRead msg1 bob);
    SendMessage 30 "s2" (mkSend bob alice (TextStr (units "hello")) (Some chat0)) ].

(** Alice and Bob open their conversation at the same moment. *)
Definition both_open : list Call := [start alice bob; start bob alice].



(** Alice sends fifty-one messages, at times 1 to 51. *)
Definition long_talk : list ClientEvent :=
  [ Connection "s1"; UserOnline "s1" alice ] ++
  map (fun k => SendMessage (Z.of_nat k) "s1" alice_to_bob) (seq 1 51).

(** The message Alice's [send_message] stores, and the chat it goes to. *)
Definition alice_message : Message := mkMessage msg1 chat0 alice hi sent [alice] 10.

Definition alice_bob_chat : Chat := mkChat chat0 [alice; bob] (Some msg1).

(** A message for the chat of Alice and Bob from a sender whose id is no
    ObjectId. *)
Definition mallory_writes : SendData :=
  mkSend "mallory" bob (TextStr hi) (Some chat0).

(** Bob's id as a client may spell it: the same ObjectId, in upper case. *)
Definition bob_upper : string := "BBBBBBBBBBBBBBBBBBBBBBBB".

(** Bob's receipt for Alice's message, in the two spellings of his id. *)
Definition bob_reads : ReadData := mkRead msg1 bob.
Definition bob_reads_upper : ReadData := mkRead msg1 bob_upper.

(** Bob's socket [s2] connects after Alice has written. *)
Definition bob_arrives : list ClientEvent := alice_writes ++ [Connection "s2"].

(** One receipt arrives twice before the first is through: both handlers
    load the message, then both save. *)
Definition receipts_overlap : list Move :=
  [ Arrive (MarkAsRead "s2" bob_reads); Arrive (MarkAsRead "s2" bob_reads);
    Resume 0; Resume 1; Resume 0; Resume 1 ].



(** ** The Mongoose models and the socket primitives *)

Section Server.

(** [oid_ok id]: [new mongoose.Types.ObjectId(id)] (and the cast Mongoose
    applies to the argument of [findById]) accepts [id]. *)
Variable oid_ok : string -> bool.

(** [oid_str id]: the id that [new mongoose.Types.ObjectId(id)] denotes, as
    [toString()] prints it.  Stored ids are held in this spelling, whatever
    the spelling of the string they were cast from. *)
Variable oid_str : string -> string.

(** [new_oid n]: the [n]-th [_id] the driver generates. *)
Variable new_oid : nat -> string.

(** [new mongoose.Types.ObjectId(id)] *)
Definition ObjectId (id : string) : M string :=
  if oid_ok id then ret (oid_str id) else throw.

(** [{ participants: { $all: [a, b] } }]: the array holds both values. *)
Definition has_all (a b : string) (c : Chat) : bool :=
  bool_decide (a ∈ participants c) && bool_decide (b ∈ participants c).

(** [ChatModel.findOne({ participants: { $all: [a, b] } })]: the first
    match in natural order. *)
Definition ChatModel_findOne (a b : string) : M (option Chat) :=
  s ← get; ret (find (has_all a b) (chats s)).

(** [ChatModel.create({ participants: ps })] *)
Definition ChatModel_create (ps : list string) : M Chat :=
  s ← get;
  let c := mkChat (new_oid (nextOid s)) ps None in
  modify (fun s => bump_oid (set_chats (fun cs => cs ++ [c]) s)) ;;
  ret c.

(** [ChatModel.findById(id)] for a string [id]: Mongoose casts it to an
    ObjectId first, and the query rejects when the cast fails. *)
Definition ChatModel_findById (id : string) : M (option Chat) :=
  oid ← ObjectId id;
  s ← get;
  ret (find (fun c => String.eqb (chat_id c) oid) (chats s)).

(** Replace the first document that satisfies [p]. *)
Fixpoint update_first {A} (p : A -> bool) (f : A -> A) (l : list A) : list A :=
  match l with
  | [] => []
  | x :: r => if p x then f x :: r else x :: update_first p f r
  end.

(** [chat.lastMessage = mid; await chat.save()] *)
Definition Chat_save_lastMessage (c : Chat) (mid : string) : M unit :=
  modify (set_chats (update_first
    (fun d => String.eqb (chat_id d) (chat_id c))
    (fun d => mkChat (chat_id d) (participants d) (Some mid)))).

(** [MessageModel.create({...})] at time [now]; the schema trims [text]. *)
Definition MessageModel_create (now : Z) (cid sender : string) (body : jsstring)
    (readers : list string) (st : Status) : M Message :=
  s ← get;
  let m := mkMessage (new_oid (nextOid s)) cid sender (trim body) st readers now in
  modify (fun s => bump_oid (set_messages (fun ms => ms ++ [m]) s)) ;;
  ret m.

Definition find_message (mid : string) (ms : list Message) : option Message :=
  find (fun m => String.eqb (msg_id m) mid) ms.

(** [MessageModel.findById(id)] for a string [id] (cast first). *)
Definition MessageModel_findById (id : string) : M (option Message) :=
  oid ← ObjectId id;
  s ← get;
  ret (find_message oid (messages s)).

(** [MessageModel.findById(m._id)] for the [_id] of a document in hand:
    nothing to cast. *)
Definition MessageModel_findById_oid (oid : string) : M (option Message) :=
  s ← get;
  ret (find_message oid (messages s)).

(** [MessageModel.findByIdAndUpdate(id, { status: st })] *)
Definition MessageModel_findByIdAndUpdate (id : string) (st : Status) : M unit :=
  modify (set_messages (update_first
    (fun m => String.eqb (msg_id m) id)
    (fun m => mkMessage (msg_id m) (chatId m) (senderId m) (text m) st
                        (readBy m) (createdAt m)))).

(** [message.readBy.push(u); message.status = "read"; await message.save()]:
    [save] writes the two modified paths to the stored document, the new
    status with [$set] and the new reader with [$push], so the reader is
    appended to the array as it is stored at that moment. *)
Definition Message_save_read (m : Message) (u : string) : M unit :=
  modify (set_messages (update_first
    (fun d => String.eqb (msg_id d) (msg_id m))
    (fun d => mkMessage (msg_id d) (chatId d) (senderId d) (text d) read
                        (readBy d ++ [u]) (createdAt d)))).

(** [.sort({ createdAt: 1 })]: ascending, ties left in natural order. *)
Fixpoint insert_by_createdAt (m : Message) (l : list Message) : list Message :=
  match l with
  | [] => [m]
  | x :: r =>
      if createdAt m <=? createdAt x then m :: l
      else x :: insert_by_createdAt m r
  end.

Definition sort_by_createdAt (l : list Message) : list Message :=
  foldr insert_by_createdAt [] l.

(** [.populate("senderId", "fullName avatar")] *)
Definition populate (us : list User) (m : Message) : PopulatedMessage :=
  mkPopulated m (find (fun u => String.eqb (user_id u) (senderId m)) us).

(** [MessageModel.find({ chatId }).sort({ createdAt: 1 })]: the whole
    conversation, oldest first. *)
Definition conversation (s : State) (cid : string) : list Message :=
  sort_by_createdAt (filter (fun m => chatId m = cid) (messages s)).

(** [MessageModel.find({ chatId }).sort({ createdAt: 1 }).limit(50)
      .populate("senderId", "fullName avatar").lean()] *)
Definition history (s : State) (cid : string) : list PopulatedMessage :=
  map (populate (users s)) (take 50 (conversation s cid)).

Definition MessageModel_history (cid : string) : M (list PopulatedMessage) :=
  s ← get;
  ret (history s cid).

(** [socket.join(room)] on the socket [sid]. *)
Definition joined (room : string) (sk : Socket) : Socket :=
  mkSocket (userId sk) ({[ room ]} ∪ rooms sk).

Definition socket_join (sid : SocketId) (room : string) : M unit :=
  modify (set_sockets (alter (joined room) sid)).

(** [onlineUsers.get(uid)] followed by the truthiness test the handlers
    apply to it: [None] for a missing entry or an empty socket id. *)
Definition receiverSocketId (s : State) (uid : string) : option SocketId :=
  match onlineUsers s !! uid with
  | Some sid => if truthy sid then Some sid else None
  | None => None
  end.

(** ** The handlers of [io.on("connection", ...)] *)

(** [socket.on("user_online", ...)] *)
Definition user_online (sid : SocketId) (uid : string) : M unit :=
  modify (set_onlineUsers (insert uid sid)) ;;
  modify (set_sockets (alter (fun sk => mkSocket (Some uid) (rooms sk)) sid)) ;;
  emit ToAll (user_status uid true).

(** [if (!chat) { chat = await ChatModel.create(...) }] *)
Definition create_if_missing (found : option Chat) (sender receiver : string) : M Chat :=
  match found with
  | Some c => ret c
  | None =>
      a ← ObjectId sender;
      b ← ObjectId receiver;
      ChatModel_create [a; b]
  end.

(** The receiver's socket, when the presence map names one that is still
    in [io.sockets.sockets]. *)
Definition receiverSocket (s : State) (receiver : string) : option SocketId :=
  match receiverSocketId s receiver with
  | Some rsid => if bool_decide (is_Some (sockets s !! rsid)) then Some rsid else None
  | None => None
  end.

(** The find-then-create sequence of [join_chat], and of [send_message]
    when the payload names no chat. *)
Definition find_by_pair (sender receiver : string) : M (option Chat) :=
  a ← ObjectId sender;
  b ← ObjectId receiver;
  ChatModel_findOne a b.

Definition resolve_or_create (sender receiver : string) : M Chat :=
  found ← find_by_pair sender receiver;
  create_if_missing found sender receiver.

(** [socket.on("join_chat", ...)] *)
Definition join_chat (sid : SocketId) (data : JoinData) : M unit :=
  let sender := jd_senderId data in
  let receiver := jd_receiverId data in
  try_catch
    (chat ← resolve_or_create sender receiver;
     let cid := chat_id chat in
     socket_join sid cid ;;
     emit (ToSocket sid) (chat_joined cid) ;;
     msgs ← MessageModel_history cid;
     emit (ToSocket sid) (chat_history msgs) ;;
     s ← get;
     match receiverSocket s receiver with
     | Some rsid =>
         socket_join rsid cid ;;
         emit (ToSocket rsid) (chat_joined cid) ;;
         emit (ToSocket rsid) (chat_history msgs)
     | None => ret tt
     end)
    (emit (ToSocket sid) (error_event "Failed to join chat")).

(** [socket.on("accept_chat", ...)] *)
Definition accept_chat (sid : SocketId) (data : AcceptData) : M unit :=
  try_catch
    (socket_join sid (ad_chatId data) ;;
     cid ← ObjectId (ad_chatId data);
     msgs ← MessageModel_history cid;
     emit (ToSocket sid) (chat_history msgs))
    (ret tt).

(** The chat a [send_message] goes to: looked up by [chatId] when the
    payload carries a truthy one, by the pair otherwise, and created when
    the lookup gave nothing. *)
Definition resolve_chat (data : SendData) : M Chat :=
  let sender := sd_senderId data in
  let receiver := sd_receiverId data in
  found ← match sd_chatId data with
          | Some cid =>
              if truthy cid then ChatModel_findById cid
              else find_by_pair sender receiver
          | None => find_by_pair sender receiver
          end;
  create_if_missing found sender receiver.

(** [socket.on("send_message", ...)], from the chat resolution on; [body]
    is the text, known to be a string that does not trim to nothing. *)
Definition send_message_body (now : Z) (sid : SocketId) (data : SendData)
    (body : jsstring) : M unit :=
  let sender := sd_senderId data in
  let receiver := sd_receiverId data in
  chat ← resolve_chat data;
  let roomId := chat_id chat in
  socket_join sid roomId ;;
  s ← get;
  let rsid := receiverSocketId s receiver in
  match receiverSocket s receiver with
  | Some r => socket_join r roomId
  | None => ret tt
  end ;;
  a ← ObjectId sender;
  a' ← ObjectId sender;
  newMessage ← MessageModel_create now roomId a (trim body) [a'] sent;
  Chat_save_lastMessage chat (msg_id newMessage) ;;
  found_msg ← MessageModel_findById_oid (msg_id newMessage);
  s1 ← get;
  emit (ToRoom roomId) (receive_message (populate (users s1) <$> found_msg)) ;;
  match rsid with
  | Some _ =>
      MessageModel_findByIdAndUpdate (msg_id newMessage) delivered ;;
      emit (ToRoom roomId) (message_delivered (msg_id newMessage))
  | None => ret tt
  end ;;
  emit (ToRoomExcept roomId sid) (user_stopped_typing sender).

Definition send_message (now : Z) (sid : SocketId) (data : SendData) : M unit :=
  try_catch
    (match sd_text data with
     | TextMissing => ret tt
     | TextOther => throw
     | TextStr body =>
         match trim body with
         | [] => ret tt
         | _ :: _ => send_message_body now sid data body
         end
     end)
    (emit (ToSocket sid) (message_error "Failed to send message")).

(** [socket.on("typing", ...)] and [socket.on("stop_typing", ...)] *)
Definition typing (sid : SocketId) (data : TypingData) : M unit :=
  emit (ToRoomExcept (td_chatId data) sid) (user_typing (td_userId data)).

Definition stop_typing (sid : SocketId) (data : TypingData) : M unit :=
  emit (ToRoomExcept (td_chatId data) sid) (user_stopped_typing (td_userId data)).

(** [message.readBy.includes(userId)] *)
Definition includes (u : string) (l : list string) : bool := bool_decide (u ∈ l).

(** [socket.on("mark_as_read", ...)] *)
Definition mark_as_read (sid : SocketId) (data : ReadData) : M unit :=
  try_catch
    (message ← MessageModel_findById (rd_messageId data);
     match message with
     | Some m =>
         if includes (rd_userId data) (readBy m) then ret tt
         else
           u ← ObjectId (rd_userId data);
           Message_save_read m u ;;
           emit (ToRoom (chatId m)) (message_read (rd_messageId data) (rd_userId data))
     | None => ret tt
     end)
    (ret tt).

(** [socket.on("disconnect", ...)], run on the socket object [sk] once
    socket.io has taken the socket out of [io.sockets.sockets]. *)
Definition disconnect (sk : Socket) : M unit :=
  match userId sk with
  | Some uid =>
      if truthy uid then
        modify (set_onlineUsers (delete uid)) ;;
        emit ToAll (user_status uid false)
      else ret tt
  | None => ret tt
  end.

(** ** The dispatcher: one client event at a time *)

(** A connection registers a fresh socket, which sits in the room of its
    own id; every other event reaches its handler only on a connected
    socket; a disconnect removes the socket and then runs the handler. *)
Definition dispatch (e : ClientEvent) : M unit :=
  s ← get;
  match sockets s !! event_socket e, e with
  | None, Connection sid =>
      modify (set_sockets (insert sid (mkSocket None {[ sid ]})))
  | Some _, Connection _ => ret tt
  | None, _ => ret tt
  | Some _, UserOnline sid uid => user_online sid uid
  | Some _, JoinChat sid data => join_chat sid data
  | Some _, AcceptChat sid data => accept_chat sid data
  | Some _, SendMessage now sid data => send_message now sid data
  | Some _, Typing sid data => typing sid data
  | Some _, StopTyping sid data => stop_typing sid data
  | Some _, MarkAsRead sid data => mark_as_read sid data
  | Some sk, Disconnect sid =>
      modify (set_sockets (delete sid)) ;; disconnect sk
  end.

Definition step (s : State) (e : ClientEvent) : State * list Emit :=
  run (dispatch e) s.

(** A sequence of events, each handled to completion before the next one
    arrives: the runs of the event loop in which no handler is suspended
    when an event arrives ([moves], below, has the others). *)
Fixpoint steps (s : State) (es : list ClientEvent) : State * list Emit :=
  match es with
  | [] => (s, [])
  | e :: r =>
      let '(s1, o1) := step s e in
      let '(s2, o2) := steps s1 r in
      (s2, o1 ++ o2)
  end.

(** ** Concurrent resolutions *)

(** One call runs up to its next [await]. *)
Definition advance (t : Call) : M Pc :=
  match call_pc t with
  | AtFind =>
      try_catch
        (found ← find_by_pair (call_sender t) (call_receiver t);
         ret (match found with Some c => Resolved c | None => AtCreate end))
        (ret Failed)
  | AtCreate =>
      try_catch
        (c ← create_if_missing None (call_sender t) (call_receiver t);
         ret (Resolved c))
        (ret Failed)
  | pc => ret pc
  end.

Definition advance_nth (i : nat) (s : State) (ts : list Call) : State * list Call :=
  match ts !! i with
  | Some t =>
      match advance t s with
      | (Some pc, s', _) => (s', <[i := mkCall (call_sender t) (call_receiver t) pc]> ts)
      | (None, s', _) => (s', ts)
      end
  | None => (s, ts)
  end.

Fixpoint run_schedule (s : State) (ts : list Call) (sched : list nat)
    : State * list Call :=
  match sched with
  | [] => (s, ts)
  | i :: r => let '(s', ts') := advance_nth i s ts in run_schedule s' ts' r
  end.

(** ** Handlers that overlap *)

(** A handler reaches an [await]; [k] is the awaited operation and the code
    after it. *)
Definition await (k : M Proc) : M Proc := ret (Await k).

(** The rest of a handler inside [try { ... } catch { handler }]: a throw
    ends it in the [catch] block. *)
Definition guarded (handler : M unit) (body : M Proc) : M Proc :=
  try_catch body (handler ;; ret Done).

(** [mark_as_read], cut at [await MessageModel.findById] and at
    [await message.save()]. *)
Definition mark_as_read_proc (sid : SocketId) (data : ReadData) : M Proc :=
  let caught := guarded (ret tt) in
  await (caught (
    message ← MessageModel_findById (rd_messageId data);
    match message with
    | Some m =>
        if includes (rd_userId data) (readBy m) then ret Done
        else
          u ← ObjectId (rd_userId data);
          await (caught (
            Message_save_read m u ;;
            emit (ToRoom (chatId m))
              (message_read (rd_messageId data) (rd_userId data)) ;;
            ret Done))
    | None => ret Done
    end)).

(** [accept_chat], cut at its one [await]. *)
Definition accept_chat_proc (sid : SocketId) (data : AcceptData) : M Proc :=
  let caught := guarded (ret tt) in
  caught (
    socket_join sid (ad_chatId data) ;;
    cid ← ObjectId (ad_chatId data);
    await (caught (
      msgs ← MessageModel_history cid;
      emit (ToSocket sid) (chat_history msgs) ;;
      ret Done))).

(** [join_chat], cut at [await ChatModel.findOne], at
    [await ChatModel.create] and at the [await] of the history query. *)
Definition join_chat_proc (sid : SocketId) (data : JoinData) : M Proc :=
  let sender := jd_senderId data in
  let receiver := jd_receiverId data in
  let caught := guarded (emit (ToSocket sid) (error_event "Failed to join chat")) in
  let opened (chat : Chat) : M Proc :=
    let cid := chat_id chat in
    socket_join sid cid ;;
    emit (ToSocket sid) (chat_joined cid) ;;
    await (caught (
      msgs ← MessageModel_history cid;
      emit (ToSocket sid) (chat_history msgs) ;;
      s ← get;
      match receiverSocket s receiver with
      | Some rsid =>
          socket_join rsid cid ;;
          emit (ToSocket rsid) (chat_joined cid) ;;
          emit (ToSocket rsid) (chat_history msgs)
      | None => ret tt
      end ;;
      ret Done)) in
  caught (
    a ← ObjectId sender;
    b ← ObjectId receiver;
    await (caught (
      found ← ChatModel_findOne a b;
      match found with
      | Some chat => opened chat
      | None =>
          a ← ObjectId sender;
          b ← ObjectId receiver;
          await (caught (chat ← ChatModel_create [a; b]; opened chat))
      end))).

(** [send_message], cut at each of its [await]s: the chat lookup, the chat
    creation, [MessageModel.create], [chat.save], the populating
    [findById], [fetchSockets] and [findByIdAndUpdate]. *)
Definition send_message_proc (now : Z) (sid : SocketId) (data : SendData)
    : M Proc :=
  let sender := sd_senderId data in
  let receiver := sd_receiverId data in
  let caught :=
    guarded (emit (ToSocket sid) (message_error "Failed to send message")) in
  let stored (body : jsstring) (chat : Chat) (rsid : option SocketId)
      (newMessage : Message) : M Proc :=
    let roomId := chat_id chat in
    await (caught (
      Chat_save_lastMessage chat (msg_id newMessage) ;;
      await (caught (
        found_msg ← MessageModel_findById_oid (msg_id newMessage);
        s1 ← get;
        let populatedMessage := populate (users s1) <$> found_msg in
        await (caught (
          emit (ToRoom roomId) (receive_message populatedMessage) ;;
          match rsid with
          | Some _ =>
              await (caught (
                MessageModel_findByIdAndUpdate (msg_id newMessage) delivered ;;
                emit (ToRoom roomId) (message_delivered (msg_id newMessage)) ;;
                emit (ToRoomExcept roomId sid) (user_stopped_typing sender) ;;
                ret Done))
          | None =>
              emit (ToRoomExcept roomId sid) (user_stopped_typing sender) ;;
              ret Done
          end)))))) in
  let resolved_chat (body : jsstring) (chat : Chat) : M Proc :=
    let roomId := chat_id chat in
    socket_join sid roomId ;;
    s ← get;
    let rsid := receiverSocketId s receiver in
    match receiverSocket s receiver with
    | Some r => socket_join r roomId
    | None => ret tt
    end ;;
    a ← ObjectId sender;
    a' ← ObjectId sender;
    await (caught (
      newMessage ← MessageModel_create now roomId a (trim body) [a'] sent;
      stored body chat rsid newMessage)) in
  let looked_up (body : jsstring) (found : option Chat) : M Proc :=
    match found with
    | Some chat => resolved_chat body chat
    | None =>
        a ← ObjectId sender;
        b ← ObjectId receiver;
        await (caught (chat ← ChatModel_create [a; b]; resolved_chat body chat))
    end in
  let from_pair (body : jsstring) : M Proc :=
    a ← ObjectId sender;
    b ← ObjectId receiver;
    await (caught (found ← ChatModel_findOne a b; looked_up body found)) in
  caught (
    match sd_text data with
    | TextMissing => ret Done
    | TextOther => throw
    | TextStr body =>
        match trim body with
        | [] => ret Done
        | _ :: _ =>
            match sd_chatId data with
            | Some cid =>
                if truthy cid
                then await (caught (found ← ChatModel_findById cid;
                                    looked_up body found))
                else from_pair body
            | None => from_pair body
            end
        end
    end).

(** An event arrives: the handlers without an [await] run through, the
    others run up to their first [await]. *)
Definition arrive (e : ClientEvent) : M Proc :=
  s ← get;
  match sockets s !! event_socket e, e with
  | None, Connection sid =>
      modify (set_sockets (insert sid (mkSocket None {[ sid ]}))) ;; ret Done
  | Some _, Connection _ => ret Done
  | None, _ => ret Done
  | Some _, UserOnline sid uid => user_online sid uid ;; ret Done
  | Some _, JoinChat sid data => join_chat_proc sid data
  | Some _, AcceptChat sid data => accept_chat_proc sid data
  | Some _, SendMessage now sid data => send_message_proc now sid data
  | Some _, Typing sid data => typing sid data ;; ret Done
  | Some _, StopTyping sid data => stop_typing sid data ;; ret Done
  | Some _, MarkAsRead sid data => mark_as_read_proc sid data
  | Some sk, Disconnect sid =>
      modify (set_sockets (delete sid)) ;; disconnect sk ;; ret Done
  end.

(** A handler resumed again and again until it is finished, with no other
    handler in between; [fuel] bounds the number of [await]s. *)
Fixpoint finish (fuel : nat) (p : Proc) : M unit :=
  match p, fuel with
  | Await k, S n => p' ← k; finish n p'
  | _, _ => ret tt
  end.

(** One move of the event loop. *)
Definition move (w : World) (mv : Move) : World * list Emit :=
  let '(s, ps) := w in
  match mv with
  | Arrive e =>
      match arrive e s with
      | (Some p, s', o) => ((s', ps ++ [p]), o)
      | (None, s', o) => ((s', ps), o)
      end
  | Resume i =>
      match ps !! i with
      | Some (Await k) =>
          match k s with
          | (Some p, s', o) => ((s', <[i := p]> ps), o)
          | (None, s', o) => ((s', <[i := Done]> ps), o)
          end
      | _ => (w, [])
      end
  end.

Fixpoint moves (w : World) (mvs : list Move) : World * list Emit :=
  match mvs with
  | [] => (w, [])
  | mv :: r =>
      let '(w1, o1) := move w mv in
      let '(w2, o2) := moves w1 r in
      (w2, o1 ++ o2)
  end.

(** The events that arrive in a schedule, in their order. *)
Definition arrivals (mvs : list Move) : list ClientEvent :=
  omap (fun mv => match mv with Arrive e => Some e | Resume _ => None end) mvs.

(** ** Vocabulary of the properties *)

(** [extends R l l']: [l'] is [l], each document possibly advanced along
    [R], followed by new documents.  The collections are never reordered
    and no handler deletes from them. *)
Definition extends {A} (R : A -> A -> Prop) (l l' : list A) : Prop :=
  exists l1 l2, l' = l1 ++ l2 /\ Forall2 R l l1.

(** A message may only move forward: same identity and content, a status
    that is no earlier, a [readBy] that has the old one as a prefix. *)
Definition msg_le (m m' : Message) : Prop :=
  msg_id m' = msg_id m /\ chatId m' = chatId m /\ senderId m' = senderId m /\
  text m' = text m /\ createdAt m' = createdAt m /\
  status_le (status m) (status m') /\ readBy m `prefix_of` readBy m'.

(** What never changes in a chat. *)
Definition chat_key (c : Chat) : string * list string := (chat_id c, participants c).

Definition chat_le (c c' : Chat) : Prop := chat_key c' = chat_key c.

(** Every stored message carries an [_id] the driver has generated. *)
Definition ids_known (s : State) : Prop :=
  forall m, m ∈ messages s -> exists k, (k < nextOid s)%nat /\ msg_id m = new_oid k.

(** The driver never generates the same [_id] twice. *)
Definition driver_ok : Prop := forall i j, new_oid i = new_oid j -> i = j.

(** Two participant arrays name the same unordered pair. *)
Definition same_pair (p1 p2 : list string) : Prop := forall u, u ∈ p1 <-> u ∈ p2.

(** At most one chat per unordered pair. *)
Definition pairs_unique (cs : list Chat) : Prop :=
  forall i j c1 c2, cs !! i = Some c1 -> cs !! j = Some c2 ->
    same_pair (participants c1) (participants c2) -> i = j.

(** A [send_message] that resolves its chat from the pair: no [chatId], or
    a falsy one. *)
Definition by_pair (data : SendData) : bool :=
  match sd_chatId data with
  | Some cid => negb (truthy cid)
  | None => true
  end.

Definition resolves_by_pair (e : ClientEvent) : bool :=
  match e with
  | SendMessage _ _ data => by_pair data
  | _ => true
  end.

(** A [send_message] that names a chat names one that is stored (or gives
    an id the cast rejects): its lookup by id cannot come back empty. *)
Definition names_stored_chat (s : State) (e : ClientEvent) : Prop :=
  match e with
  | SendMessage _ _ data =>
      by_pair data = true \/
      exists cid, sd_chatId data = Some cid /\
        (oid_ok cid = false \/
         find (fun c => String.eqb (chat_id c) (oid_str cid)) (chats s) <> None)
  | _ => True
  end.

(** Every event of the sequence meets [names_stored_chat] in the state it
    is handled in. *)
Fixpoint lookups_succeed (s : State) (es : list ClientEvent) : Prop :=
  match es with
  | [] => True
  | e :: r => names_stored_chat s e /\ lookups_succeed (step s e).1 r
  end.

(** The events a handler emitted, by kind. *)
Definition is_message_error (e : Emit) : bool :=
  match e.2 with message_error _ => true | _ => false end.

Definition is_message_delivered (e : Emit) : bool :=
  match e.2 with message_delivered _ => true | _ => false end.

Definition is_receive_message (e : Emit) : bool :=
  match e.2 with receive_message _ => true | _ => false end.

(** A [send_message] went through when it broadcast [receive_message]. *)
Definition send_ok (now : Z) (sid : SocketId) (data : SendData) (s : State) : Prop :=
  existsb is_receive_message (run (send_message now sid data) s).2 = true.

(** The last [k] elements of a list: the most recent [k] of a history. *)
Definition most_recent {A} (k : nat) (l : list A) : list A :=
  drop (length l - k) l.

(** ** Reasoning about handlers *)

Ltac unfold_M :=
  unfold mbind, M_bind, mret, M_ret, bind, ret, throw, try_catch, get, modify,
    emit in *.

Ltac unfold_db :=
  unfold MessageModel_findById, MessageModel_findById_oid,
    MessageModel_findByIdAndUpdate, MessageModel_create, MessageModel_history,
    Message_save_read, ChatModel_findById, ChatModel_findOne, ChatModel_create,
    Chat_save_lastMessage, ObjectId, socket_join in *.

(** *** Closed forms *)

(** The chat [ChatModel.create] makes for a pair, and the store with it. *)
Definition created (s : State) (sender receiver : string) : Chat :=
  mkChat (new_oid (nextOid s)) [oid_str sender; oid_str receiver] None.

Definition with_chat (c : Chat) (s : State) : State :=
  bump_oid (set_chats (fun cs => cs ++ [c]) s).

(** The rooms once the sender, and the receiver's socket if there is one,
    have joined the room of [chat]. *)
Definition with_joins (sid : SocketId) (receiver : string) (chat : Chat)
    (s1 : State) : State :=
  let s2 := set_sockets (alter (joined (chat_id chat)) sid) s1 in
  match receiverSocket s2 receiver with
  | Some r => set_sockets (alter (joined (chat_id chat)) r) s2
  | None => s2
  end.

(** The document [MessageModel.create] stores for a [send_message]. *)
Definition sent_message (now : Z) (data : SendData) (body : jsstring)
    (chat : Chat) (s1 : State) : Message :=
  mkMessage (new_oid (nextOid s1)) (chat_id chat) (oid_str (sd_senderId data))
    (trim (trim body)) sent [oid_str (sd_senderId data)] now.

Definition mark_delivered (d : Message) : Message :=
  mkMessage (msg_id d) (chatId d) (senderId d) (text d) delivered
    (readBy d) (createdAt d).

(** State and events of a [send_message] from the resolved chat on, when no
    cast fails. *)
Definition send_outcome (now : Z) (sid : SocketId) (data : SendData)
    (body : jsstring) (chat : Chat) (s1 : State) : State * list Emit :=
  let room := chat_id chat in
  let m := sent_message now data body chat s1 in
  let s4 := bump_oid (set_messages (fun ms => ms ++ [m])
              (with_joins sid (sd_receiverId data) chat s1)) in
  let s5 := set_chats (update_first
              (fun d => String.eqb (chat_id d) (chat_id chat))
              (fun d => mkChat (chat_id d) (participants d) (Some (msg_id m)))) s4 in
  let pm := populate (users s1) <$> find_message (msg_id m) (messages s1 ++ [m]) in
  match receiverSocketId s1 (sd_receiverId data) with
  | Some _ =>
      (set_messages (update_first
         (fun d => String.eqb (msg_id d) (msg_id m)) mark_delivered) s5,
       [(ToRoom room, receive_message pm);
        (ToRoom room, message_delivered (msg_id m));
        (ToRoomExcept room sid, user_stopped_typing (sd_senderId data))])
  | None =>
      (s5,
       [(ToRoom room, receive_message pm);
        (ToRoomExcept room sid, user_stopped_typing (sd_senderId data))])
  end.

Definition send_failed (sid : SocketId) : Emit :=
  (ToSocket sid, message_error "Failed to send message").

(** What a resolution may have done: thrown, found a stored chat, or
    appended a new one for well-formed participants. *)
Definition resolved (data : SendData) (s : State) (r : option Chat) (s1 : State)
    : Prop :=
  match r with
  | None => s1 = s
  | Some c =>
      (s1 = s /\ c ∈ chats s) \/
      (c = created s (sd_senderId data) (sd_receiverId data) /\
       s1 = with_chat c s /\
       oid_ok (sd_senderId data) = true /\ oid_ok (sd_receiverId data) = true)
  end.

Definition join_failed (sid : SocketId) : Emit :=
  (ToSocket sid, error_event "Failed to join chat").

(** The document [mark_as_read] writes back for reader [u]. *)
Definition mark_read (u : string) (d : Message) : Message :=
  mkMessage (msg_id d) (chatId d) (senderId d) (text d) read
    (readBy d ++ [u]) (createdAt d).

(** Oldest first. *)
Definition older (m m' : Message) : Prop := createdAt m <= createdAt m'.

(** ** The revision kept in script.js *)

(** The second script of script.js has the same [user_online], [typing],
    [stop_typing], [mark_as_read] and [disconnect]; its [join_chat] and its
    [send_message] differ from the latest ones. *)

(** [socket.on("join_chat", ...)] of the script.js revision: no
    [chat_joined], nothing for the receiver, and a [catch] that only logs. *)
Definition script_join_chat (sid : SocketId) (data : JoinData) : M unit :=
  let sender := jd_senderId data in
  let receiver := jd_receiverId data in
  try_catch
    (chat ← resolve_or_create sender receiver;
     let cid := chat_id chat in
     socket_join sid cid ;;
     msgs ← MessageModel_history cid;
     emit (ToSocket sid) (chat_history msgs))
    (ret tt).

(** [socket.on("send_message", ...)] of the script.js revision, from the
    chat resolution on: only the sender joins the room, the presence map is
    read after the broadcast, and [message_delivered] goes to the room named
    by the receiver's socket id. *)
Definition script_send_message_body (now : Z) (sid : SocketId) (data : SendData)
    (body : jsstring) : M unit :=
  let sender := sd_senderId data in
  let receiver := sd_receiverId data in
  chat ← resolve_chat data;
  let roomId := chat_id chat in
  socket_join sid roomId ;;
  a ← ObjectId sender;
  a' ← ObjectId sender;
  newMessage ← MessageModel_create now roomId a (trim body) [a'] sent;
  Chat_save_lastMessage chat (msg_id newMessage) ;;
  found_msg ← MessageModel_findById_oid (msg_id newMessage);
  s1 ← get;
  emit (ToRoom roomId) (receive_message (populate (users s1) <$> found_msg)) ;;
  s2 ← get;
  match receiverSocketId s2 receiver with
  | Some rsid =>
      MessageModel_findByIdAndUpdate (msg_id newMessage) delivered ;;
      emit (ToRoom rsid) (message_delivered (msg_id newMessage))
  | None => ret tt
  end ;;
  emit (ToRoomExcept roomId sid) (user_stopped_typing sender).

Definition script_send_message (now : Z) (sid : SocketId) (data : SendData) : M unit :=
  try_catch
    (match sd_text data with
     | TextMissing => ret tt
     | TextOther => throw
     | TextStr body =>
         match trim body with
         | [] => ret tt
         | _ :: _ => script_send_message_body now sid data body
         end
     end)
    (emit (ToSocket sid) (message_error "Failed to send message")).

(** ** Vocabulary of the further properties *)

(** How one event may change the two collections. *)
Definition store_same (s s' : State) : Prop :=
  chats s' = chats s /\ messages s' = messages s /\ nextOid s' = nextOid s.

Definition store_created (s s' : State) : Prop :=
  exists a b,
    oid_ok a = true /\ oid_ok b = true /\
    find (has_all (oid_str a) (oid_str b)) (chats s) = None /\
    chats s' = chats s ++ [created s a b] /\
    messages s' = messages s /\ nextOid s' = S (nextOid s).

Definition store_read (data : ReadData) (s s' : State) : Prop :=
  exists m,
    find_message (oid_str (rd_messageId data)) (messages s) = Some m /\
    (rd_userId data ∉ readBy m) /\ oid_ok (rd_userId data) = true /\
    messages s' =
      update_first (fun d => String.eqb (msg_id d) (msg_id m))
        (mark_read (oid_str (rd_userId data))) (messages s) /\
    chats s' = chats s /\ nextOid s' = nextOid s.

Definition set_lastMessage (mid : string) (d : Chat) : Chat :=
  mkChat (chat_id d) (participants d) (Some mid).

Definition store_sent (s s' : State) : Prop :=
  exists now data body chat s1,
    trim body <> [] /\ oid_ok (sd_senderId data) = true /\
    resolved data s (Some chat) s1 /\
    (let m := sent_message now data body chat s1 in
     chats s' =
       update_first (fun d => String.eqb (chat_id d) (chat_id chat))
         (set_lastMessage (msg_id m)) (chats s1) /\
     (messages s' = messages s ++ [m] \/
      messages s' =
        update_first (fun d => String.eqb (msg_id d) (msg_id m)) mark_delivered
          (messages s ++ [m])) /\
     nextOid s' = S (nextOid s1)).

(** Every message belongs to a stored chat, and every [lastMessage] names
    a stored message of its chat. *)
Definition refs_ok (s : State) : Prop :=
  (forall m, m ∈ messages s -> exists c, c ∈ chats s /\ chat_id c = chatId m) /\
  (forall c mid, c ∈ chats s -> lastMessage c = Some mid ->
     exists m, m ∈ messages s /\ msg_id m = mid /\ chatId m = chat_id c).

Definition msg_ref (m : Message) : string * string := (msg_id m, chatId m).

(** A stored message: a trimmed text that is not empty, and a [readBy]
    that starts with the sender. *)
Definition message_ok (m : Message) : Prop :=
  text m <> [] /\ trim (text m) = text m /\
  head (readBy m) = Some (senderId m).

(** No reader is recorded twice. *)
Definition readers_unique (m : Message) : Prop := NoDup (readBy m).

(** A receipt that spells its [userId] the way ids print. *)
Definition plain_receipt (e : ClientEvent) : Prop :=
  match e with
  | MarkAsRead _ data => oid_str (rd_userId data) = rd_userId data
  | _ => True
  end.

(** A stored chat: two participants, both cast from strings the ObjectId
    constructor accepts. *)
Definition chat_ok (c : Chat) : Prop :=
  exists a b, participants c = [oid_str a; oid_str b] /\
    oid_ok a = true /\ oid_ok b = true.

(** The sockets of a room. *)
Definition in_room (s : State) (room : string) (sid : SocketId) : Prop :=
  exists sk, sockets s !! sid = Some sk /\ room ∈ rooms sk.

(** [readBy] is never empty, and a message is [read] exactly when [readBy]
    has an entry after the first. *)
Definition read_iff_acknowledged (m : Message) : Prop :=
  (1 <= length (readBy m))%nat /\
  (status m = read <-> (2 <= length (readBy m))%nat).


(** Every connected socket of [m] is still connected in [m'], under the same
    identity and with at least the rooms it had. *)
Definition rooms_grow (m m' : gmap SocketId Socket) : Prop :=
  forall sid sk, m !! sid = Some sk ->
    exists sk', m' !! sid = Some sk' /\ userId sk' = userId sk /\
                rooms sk ⊆ rooms sk'.

(** State and events of the older [send_message] from the resolved chat
    on, when no cast fails: only the sender joins, and [message_delivered]
    goes to the receiver's socket. *)
Definition script_send_outcome (now : Z) (sid : SocketId) (data : SendData)
    (body : jsstring) (chat : Chat) (s1 : State) : State * list Emit :=
  let room := chat_id chat in
  let m := sent_message now data body chat s1 in
  let s4 := bump_oid (set_messages (fun ms => ms ++ [m])
              (set_sockets (alter (joined room) sid) s1)) in
  let s5 := set_chats (update_first
              (fun d => String.eqb (chat_id d) (chat_id chat))
              (fun d => mkChat (chat_id d) (participants d) (Some (msg_id m)))) s4 in
  let pm := populate (users s1) <$> find_message (msg_id m) (messages s1 ++ [m]) in
  match receiverSocketId s1 (sd_receiverId data) with
  | Some rsid =>
      (set_messages (update_first
         (fun d => String.eqb (msg_id d) (msg_id m)) mark_delivered) s5,
       [(ToRoom room, receive_message pm);
        (ToRoom rsid, message_delivered (msg_id m));
        (ToRoomExcept room sid, user_stopped_typing (sd_senderId data))])
  | None =>
      (s5,
       [(ToRoom room, receive_message pm);
        (ToRoomExcept room sid, user_stopped_typing (sd_senderId data))])
  end.

(** The stored part of a state. *)
Definition store (s : State) : list Chat * list Message * nat :=
  (chats s, messages s, nextOid s).


Lemma create_if_missing_eq found a b s :
  create_if_missing found a b s =
    match found with
    | Some c => (Some c, s, [])
    | None =>
        if oid_ok a && oid_ok b
        then (Some (created s a b), with_chat (created s a b) s, [])
        else (None, s, [])
    end.
Proof.
  unfold create_if_missing, created, with_chat. unfold_db. unfold_M.
  destruct found; [reflexivity|].
  destruct (oid_ok a); [|reflexivity]. destruct (oid_ok b); reflexivity.
Qed.

Lemma find_by_pair_eq a b s :
  find_by_pair a b s =
    if oid_ok a && oid_ok b
    then (Some (find (has_all (oid_str a) (oid_str b)) (chats s)), s, [])
    else (None, s, []).
Proof.
  unfold find_by_pair. unfold_db. unfold_M.
  destruct (oid_ok a); [|reflexivity]. destruct (oid_ok b); reflexivity.
Qed.

Lemma resolve_or_create_eq a b s :
  resolve_or_create a b s =
    if oid_ok a && oid_ok b then
      match find (has_all (oid_str a) (oid_str b)) (chats s) with
      | Some c => (Some c, s, [])
      | None => (Some (created s a b), with_chat (created s a b) s, [])
      end
    else (None, s, []).
Proof.
  unfold resolve_or_create. unfold mbind, M_bind, bind.
  rewrite find_by_pair_eq. destruct (oid_ok a && oid_ok b) eqn:E; [|reflexivity].
  rewrite create_if_missing_eq, E. destruct (find _ _); reflexivity.
Qed.

Lemma ChatModel_findById_eq cid s :
  ChatModel_findById cid s =
    if oid_ok cid
    then (Some (find (fun c => String.eqb (chat_id c) (oid_str cid)) (chats s)), s, [])
    else (None, s, []).
Proof.
  unfold ChatModel_findById. unfold_db. unfold_M.
  destruct (oid_ok cid); reflexivity.
Qed.

Lemma find_stored {A} (p : A -> bool) (l : list A) c :
  find p l = Some c -> c ∈ l.
Proof. intros H. apply find_some in H as [H _]. apply list_elem_of_In, H. Qed.

Lemma create_if_missing_resolved data s found r s1 o1 :
  (forall c, found = Some c -> c ∈ chats s) ->
  create_if_missing found (sd_senderId data) (sd_receiverId data) s = (r, s1, o1) ->
  o1 = [] /\ resolved data s r s1.
Proof.
  intros Hin. rewrite create_if_missing_eq. destruct found as [c|].
  - intros [= <- <- <-]. split; [reflexivity|]. left. auto.
  - destruct (oid_ok (sd_senderId data)) eqn:Ea,
             (oid_ok (sd_receiverId data)) eqn:Eb;
      cbn; intros [= <- <- <-]; split; try reflexivity.
    right. auto.
Qed.

(** A resolution emits nothing and leaves sockets, presence and messages
    alone. *)
Lemma resolve_chat_cases data s r s1 o1 :
  resolve_chat data s = (r, s1, o1) -> o1 = [] /\ resolved data s r s1.
Proof.
  unfold resolve_chat. unfold mbind, M_bind, bind.
  assert (Hpair : forall q : option (option Chat) * State * list Emit,
            q = find_by_pair (sd_senderId data) (sd_receiverId data) s ->
            (q = (None, s, []) \/
             exists found, q = (Some found, s, []) /\
               forall c, found = Some c -> c ∈ chats s)).
  { intros q ->. rewrite find_by_pair_eq. destruct (_ && _); [right|left; reflexivity].
    eexists. split; [reflexivity|]. intros c. apply find_stored. }
  assert (Hid : forall cid (q : option (option Chat) * State * list Emit),
            q = ChatModel_findById cid s ->
            (q = (None, s, []) \/
             exists found, q = (Some found, s, []) /\
               forall c, found = Some c -> c ∈ chats s)).
  { intros cid q ->. rewrite ChatModel_findById_eq.
    destruct (oid_ok cid); [right|left; reflexivity].
    eexists. split; [reflexivity|]. intros c. apply find_stored. }
  match goal with |- match ?q with _ => _ end = _ -> _ =>
    assert (Hq : q = (None, s, []) \/
                 exists found, q = (Some found, s, []) /\
                   forall c, found = Some c -> c ∈ chats s);
    [|destruct Hq as [->|(found & -> & Hin)]]
  end.
  - destruct (sd_chatId data) as [cid|]; [destruct (truthy cid)|];
      eauto using eq_refl.
  - intros [= <- <- <-]. split; reflexivity.
  - destruct (create_if_missing found _ _ s) as [[r' s'] o'] eqn:E.
    intros [= <- <- <-]. exact (create_if_missing_resolved _ _ _ _ _ _ Hin E).
Qed.

Lemma send_message_body_run now sid data body s chat s1 o1 :
  resolve_chat data s = (Some chat, s1, o1) ->
  oid_ok (sd_senderId data) = true ->
  send_message_body now sid data body s =
    (Some tt, (send_outcome now sid data body chat s1).1,
     o1 ++ (send_outcome now sid data body chat s1).2).
Proof.
  intros Hr Hs.
  unfold send_message_body, send_outcome, with_joins, sent_message, mark_delivered.
  unfold_M. rewrite Hr. unfold_db. unfold_M. cbn. rewrite Hs. cbn.
  unfold receiverSocket, receiverSocketId. cbn.
  destruct (onlineUsers s1 !! sd_receiverId data) as [r|]; [|reflexivity].
  destruct (truthy r); [|reflexivity].
  destruct (bool_decide _); reflexivity.
Qed.

Lemma send_message_body_bad_sender now sid data body s chat s1 o1 :
  resolve_chat data s = (Some chat, s1, o1) ->
  oid_ok (sd_senderId data) = false ->
  send_message_body now sid data body s =
    (None, with_joins sid (sd_receiverId data) chat s1, o1).
Proof.
  intros Hr Hs. unfold send_message_body, with_joins.
  unfold_M. rewrite Hr. unfold_db. unfold_M. cbn. rewrite Hs. cbn.
  destruct (receiverSocket _ _); cbn; rewrite app_nil_r; reflexivity.
Qed.

Lemma send_message_body_unresolved now sid data body s s1 o1 :
  resolve_chat data s = (None, s1, o1) ->
  send_message_body now sid data body s = (None, s1, o1).
Proof.
  intros Hr. unfold send_message_body. unfold_M. rewrite Hr. reflexivity.
Qed.

(** What [send_message] does, case by case. *)
Lemma send_message_run now sid data s :
  run (send_message now sid data) s =
    match sd_text data with
    | TextMissing => (s, [])
    | TextOther => (s, [send_failed sid])
    | TextStr body =>
        match trim body with
        | [] => (s, [])
        | _ :: _ =>
            match resolve_chat data s with
            | (Some chat, s1, _) =>
                if oid_ok (sd_senderId data)
                then send_outcome now sid data body chat s1
                else (with_joins sid (sd_receiverId data) chat s1, [send_failed sid])
            | (None, s1, _) => (s1, [send_failed sid])
            end
        end
    end.
Proof.
  unfold run, send_message, try_catch.
  destruct (sd_text data) as [|body|]; try reflexivity.
  destruct (trim body) as [|c r] eqn:Hb; [reflexivity|].
  destruct (resolve_chat data s) as [[[chat|] s1] o1] eqn:Hr.
  - destruct (resolve_chat_cases _ _ _ _ _ Hr) as [-> _].
    destruct (oid_ok (sd_senderId data)) eqn:Hs.
    + rewrite (send_message_body_run _ _ _ _ _ _ _ _ Hr Hs).
      destruct (send_outcome _ _ _ _ _ _); reflexivity.
    + rewrite (send_message_body_bad_sender _ _ _ _ _ _ _ _ Hr Hs). reflexivity.
  - destruct (resolve_chat_cases _ _ _ _ _ Hr) as [-> _].
    rewrite (send_message_body_unresolved _ _ _ _ _ _ _ Hr). reflexivity.
Qed.

(** What [mark_as_read] does, case by case. *)
Lemma mark_as_read_eq sid data s :
  run (mark_as_read sid data) s =
    if oid_ok (rd_messageId data) then
      match find_message (oid_str (rd_messageId data)) (messages s) with
      | Some m =>
          if includes (rd_userId data) (readBy m) then (s, [])
          else if oid_ok (rd_userId data) then
            (set_messages (update_first
               (fun d => String.eqb (msg_id d) (msg_id m))
               (fun d => mkMessage (msg_id d) (chatId d) (senderId d) (text d) read
                           (readBy d ++ [oid_str (rd_userId data)]) (createdAt d))) s,
             [(ToRoom (chatId m), message_read (rd_messageId data) (rd_userId data))])
          else (s, [])
      | None => (s, [])
      end
    else (s, []).
Proof.
  unfold run, mark_as_read. unfold_db. unfold_M.
  destruct (oid_ok (rd_messageId data)); [|reflexivity].
  cbn. destruct (find_message _ _) as [m|]; [|reflexivity].
  destruct (includes _ _); [reflexivity|].
  destruct (oid_ok (rd_userId data)); reflexivity.
Qed.

(** ** Lists updated in place *)

Lemma find_update_first_same {A} (p : A -> bool) (f : A -> A) (l : list A) :
  (forall x, p (f x) = p x) ->
  find p (update_first p f l) = f <$> find p l.
Proof.
  intros Hp. induction l as [|x r IH]; [reflexivity|].
  cbn. destruct (p x) eqn:E; cbn.
  - rewrite Hp, E. reflexivity.
  - rewrite E. exact IH.
Qed.

Lemma update_first_none {A} (p : A -> bool) (f : A -> A) (l : list A) :
  find p l = None -> update_first p f l = l.
Proof.
  induction l as [|x r IH]; [reflexivity|].
  cbn. destruct (p x); [discriminate|]. intros H. f_equal. auto.
Qed.

Lemma find_message_id mid ms m :
  find_message mid ms = Some m -> msg_id m = mid.
Proof.
  unfold find_message. intros H. apply find_some in H as [_ H].
  apply String.eqb_eq in H. exact H.
Qed.

Lemma find_message_update mid ms m (f : Message -> Message) :
  (forall d, msg_id (f d) = msg_id d) ->
  find_message mid ms = Some m ->
  find_message mid
    (update_first (fun d => String.eqb (msg_id d) (msg_id m)) f ms) = Some (f m).
Proof.
  intros Hf Hm. pose proof (find_message_id _ _ _ Hm) as Hid. subst mid.
  unfold find_message in *.
  rewrite find_update_first_same by (intros d; rewrite Hf; reflexivity).
  rewrite Hm. reflexivity.
Qed.

Lemma includes_snoc u l : includes u (l ++ [u]) = true.
Proof.
  unfold includes. apply bool_decide_eq_true. apply elem_of_app. right.
  apply list_elem_of_singleton. reflexivity.
Qed.

(** ** Read receipts *)

(** A receipt whose [userId] is found in [readBy] as it is spelled changes
    nothing and emits nothing; so does the repetition of a receipt whose
    [userId] is spelled the way ids print, once the first receipt has been
    handled to its end. *)
Lemma mark_as_read_repeated sid sid' data s :
  (forall m, find_message (oid_str (rd_messageId data)) (messages s) = Some m ->
             rd_userId data ∈ readBy m ->
             run (mark_as_read sid data) s = (s, [])) /\
  (oid_str (rd_userId data) = rd_userId data ->
   let s1 := (run (mark_as_read sid data) s).1 in
   run (mark_as_read sid' data) s1 = (s1, [])).
Proof.
  split.
  - intros m Hm Hin. rewrite mark_as_read_eq, Hm.
    unfold includes. rewrite bool_decide_eq_true_2 by exact Hin.
    destruct (oid_ok _); reflexivity.
  - intros Hcan. cbn zeta. rewrite (mark_as_read_eq sid).
    destruct (oid_ok (rd_messageId data)) eqn:Hmid;
      [|cbn; rewrite mark_as_read_eq, Hmid; reflexivity].
    destruct (find_message _ _) as [m|] eqn:Hm;
      [|cbn; rewrite mark_as_read_eq, Hmid, Hm; reflexivity].
    destruct (includes _ _) eqn:Hinc;
      [cbn; rewrite mark_as_read_eq, Hmid, Hm, Hinc; reflexivity|].
    destruct (oid_ok (rd_userId data)) eqn:Hu;
      [|cbn; rewrite mark_as_read_eq, Hmid, Hm, Hinc, Hu; reflexivity].
    cbn [fst]. rewrite mark_as_read_eq, Hmid. cbn [messages set_messages].
    erewrite find_message_update; [|reflexivity|exact Hm].
    cbn [readBy]. rewrite Hcan, includes_snoc. reflexivity.
Qed.

(** C10 — a read receipt needs no membership.  For a stored message [m]
    found under [messageId] and a well-formed [userId] that is not in
    [m.readBy], [mark_as_read] appends the id [userId] spells to [readBy], sets the status
    to [read] and emits [message_read {messageId, userId}] to the room of
    [m]'s chat, and nothing else.  No chat is consulted: the outcome is the
    same whatever the chats collection holds, so whether or not [userId] is
    a participant of the owning chat. *)
Theorem C10_mark_as_read_unchecked sid data s m :
  oid_ok (rd_messageId data) = true ->
  find_message (oid_str (rd_messageId data)) (messages s) = Some m ->
  rd_userId data ∉ readBy m ->
  oid_ok (rd_userId data) = true ->
  let '(s', out) := run (mark_as_read sid data) s in
  find_message (oid_str (rd_messageId data)) (messages s') =
    Some (mkMessage (msg_id m) (chatId m) (senderId m) (text m) read
            (readBy m ++ [oid_str (rd_userId data)]) (createdAt m)) /\
  out = [(ToRoom (chatId m), message_read (rd_messageId data) (rd_userId data))] /\
  chats s' = chats s /\
  (forall cs, run (mark_as_read sid data) (set_chats (fun _ => cs) s) =
              (set_chats (fun _ => cs) s', out)).
Proof.
  intros Hmid Hm Hnin Hu. rewrite mark_as_read_eq, Hmid, Hm, Hu.
  unfold includes. rewrite bool_decide_eq_false_2 by exact Hnin.
  cbn [messages set_messages chats].
  erewrite find_message_update; [|reflexivity|exact Hm].
  repeat split; try reflexivity.
  intros cs. rewrite mark_as_read_eq. cbn [messages set_chats].
  rewrite Hmid, Hm, Hu. unfold includes.
  rewrite bool_decide_eq_false_2 by exact Hnin. reflexivity.
Qed.

(** ** [trim] *)

Lemma trimStart_split (s : jsstring) :
  exists ws, s = ws ++ trimStart s /\ forallb isWhiteSpace ws = true.
Proof.
  induction s as [|c r (ws & Hr & Hws)]; [exists []; auto|].
  cbn. destruct (isWhiteSpace c) eqn:E.
  - exists (c :: ws). cbn. rewrite E, Hws. split; [congruence|reflexivity].
  - exists []. auto.
Qed.

Lemma trimStart_head (s : jsstring) c r :
  trimStart s = c :: r -> isWhiteSpace c = false.
Proof.
  induction s as [|x s' IH]; [discriminate|].
  cbn. destruct (isWhiteSpace x) eqn:E; [exact IH|].
  intros [= <- _]. exact E.
Qed.

Lemma trimStart_fixed c r :
  isWhiteSpace c = false -> trimStart (c :: r) = c :: r.
Proof. intros E. cbn. rewrite E. reflexivity. Qed.

Lemma trimStart_blank (s : jsstring) :
  trimStart s = [] <-> forallb isWhiteSpace s = true.
Proof.
  induction s as [|c r IH]; [split; reflexivity|].
  cbn. destruct (isWhiteSpace c); cbn; [exact IH|]. split; discriminate.
Qed.

Lemma forallb_rev {A} (p : A -> bool) (l : list A) :
  forallb p (rev l) = forallb p l.
Proof.
  induction l as [|x r IH]; [reflexivity|].
  cbn. rewrite forallb_app, IH. cbn. rewrite andb_true_r, andb_comm. reflexivity.
Qed.

Lemma rev_nil_inv {A} (l : list A) : rev l = [] -> l = [].
Proof. intros H. rewrite <- (rev_involutive l), H. reflexivity. Qed.

(** A body trims to nothing exactly when it is empty or all whitespace. *)
Lemma trim_blank (s : jsstring) :
  trim s = [] <-> forallb isWhiteSpace s = true.
Proof.
  unfold trim, trimEnd. split.
  - intros H. apply rev_nil_inv in H. apply trimStart_blank in H.
    rewrite forallb_rev in H.
    destruct (trimStart s) as [|c r] eqn:E; [apply trimStart_blank, E|].
    apply trimStart_head in E. cbn in H. rewrite E in H. discriminate.
  - intros H. apply trimStart_blank in H. rewrite H. reflexivity.
Qed.

(** What is left of a string that starts with a visible code unit, once its
    trailing whitespace is cut, starts with that code unit. *)
Lemma trimEnd_head c r :
  isWhiteSpace c = false -> exists r', trimEnd (c :: r) = c :: r'.
Proof.
  intros E. unfold trimEnd.
  destruct (trimStart_split (rev (c :: r))) as (ws & Hs & Hws).
  destruct (rev (trimStart (rev (c :: r)))) as [|x r'] eqn:Hu.
  - apply rev_nil_inv in Hu. rewrite Hu, app_nil_r in Hs.
    rewrite <- Hs, forallb_rev in Hws. cbn in Hws. rewrite E in Hws. discriminate.
  - apply (f_equal (@rev N)) in Hs. rewrite rev_involutive, rev_app_distr, Hu in Hs.
    cbn in Hs. injection Hs as -> _. eauto.
Qed.

Lemma trimEnd_last (s : jsstring) :
  trimStart (rev (trimEnd s)) = rev (trimEnd s).
Proof.
  unfold trimEnd. rewrite rev_involutive.
  destruct (trimStart (rev s)) as [|c r] eqn:E; [reflexivity|].
  apply trimStart_fixed. eapply trimStart_head, E.
Qed.

(** [trim] is idempotent: the schema's own [trim] changes nothing in a
    text the handler has trimmed. *)
Lemma trim_idempotent (s : jsstring) : trim (trim s) = trim s.
Proof.
  assert (Hfix : forall t, trimStart (trimEnd t) = trimEnd t ->
                 trimEnd (trimStart (trimEnd t)) = trimEnd t).
  { intros t ->. unfold trimEnd at 1. rewrite trimEnd_last, rev_involutive.
    reflexivity. }
  unfold trim. apply Hfix.
  destruct (trimStart s) as [|c r] eqn:E; [reflexivity|].
  pose proof (trimStart_head _ _ _ E) as Hc.
  destruct (trimEnd_head c r Hc) as (r' & ->).
  apply trimStart_fixed, Hc.
Qed.

(** ** Sending *)

(** C4 — a [send_message] whose text trims to the empty string (an empty
    or whitespace-only body) is dropped without a trace: the state is the
    one before (no message stored, no chat created or touched, no room
    joined) and nothing is emitted, to anyone. *)
Theorem C4_blank_text_is_dropped now sid data body s :
  sd_text data = TextStr body ->
  trim body = [] ->
  run (send_message now sid data) s = (s, []).
Proof.
  intros Ht Hb. rewrite send_message_run, Ht, Hb. reflexivity.
Qed.

(** ** Collections that only grow *)

Lemma Forall2_diag {A} (R : A -> A -> Prop) l :
  (forall x, R x x) -> Forall2 R l l.
Proof. intros HR. induction l; constructor; auto. Qed.

Lemma find_app {A} (p : A -> bool) l1 l2 :
  find p (l1 ++ l2) =
    match find p l1 with Some x => Some x | None => find p l2 end.
Proof.
  induction l1 as [|x r IH]; [reflexivity|]. cbn. destruct (p x); auto.
Qed.

Lemma extends_refl {A} (R : A -> A -> Prop) l :
  (forall x, R x x) -> extends R l l.
Proof.
  intros HR. exists l, []. rewrite app_nil_r. split; [reflexivity|].
  apply Forall2_diag, HR.
Qed.

Lemma extends_trans {A} (R : A -> A -> Prop) l1 l2 l3 :
  (forall x y z, R x y -> R y z -> R x z) ->
  extends R l1 l2 -> extends R l2 l3 -> extends R l1 l3.
Proof.
  intros HR (a & b & -> & Hab) (c & d & -> & Hcd).
  apply Forall2_app_inv_l in Hcd as (c1 & c2 & Hc1 & Hc2 & ->).
  exists c1, (c2 ++ d). rewrite app_assoc. split; [reflexivity|].
  clear Hc2. revert c1 Hc1. induction Hab as [|x y l l' Hxy _ IH]; intros c1 Hc1.
  - inversion Hc1. constructor.
  - inversion Hc1; subst. constructor; [eapply HR; eauto|]. apply IH. assumption.
Qed.

Lemma extends_snoc {A} (R : A -> A -> Prop) l x :
  (forall x, R x x) -> extends R l (l ++ [x]).
Proof.
  intros HR. exists l, [x]. split; [reflexivity|]. apply Forall2_diag, HR.
Qed.

Lemma Forall2_update_first {A} (R : A -> A -> Prop) p f (l : list A) :
  (forall x, R x x) ->
  (forall x, find p l = Some x -> R x (f x)) ->
  Forall2 R l (update_first p f l).
Proof.
  intros HR. induction l as [|x r IH]; intros Hf; [constructor|].
  cbn in *. destruct (p x) eqn:E.
  - constructor; [apply Hf; reflexivity|]. apply Forall2_diag, HR.
  - constructor; [apply HR|]. apply IH, Hf.
Qed.

Lemma extends_update_first {A} (R : A -> A -> Prop) p f (l : list A) :
  (forall x, R x x) ->
  (forall x, find p l = Some x -> R x (f x)) ->
  extends R l (update_first p f l).
Proof.
  intros HR Hf. exists (update_first p f l), []. rewrite app_nil_r.
  split; [reflexivity|]. apply Forall2_update_first; assumption.
Qed.


Lemma status_le_refl st : status_le st st.
Proof. unfold status_le. lia. Qed.

Lemma msg_le_refl m : msg_le m m.
Proof. unfold msg_le. repeat split; try reflexivity. apply status_le_refl. Qed.

Lemma msg_le_trans a b c : msg_le a b -> msg_le b c -> msg_le a c.
Proof.
  unfold msg_le, status_le.
  intros (?&?&?&?&?&?&?) (?&?&?&?&?&?&?).
  repeat split; try congruence; try lia. etrans; eassumption.
Qed.

Lemma chat_le_refl c : chat_le c c.
Proof. reflexivity. Qed.

Lemma chat_le_trans a b c : chat_le a b -> chat_le b c -> chat_le a c.
Proof. unfold chat_le. congruence. Qed.

(** *** The other handlers, case by case *)

Lemma with_joins_db sid receiver chat s :
  chats (with_joins sid receiver chat s) = chats s /\
  messages (with_joins sid receiver chat s) = messages s /\
  nextOid (with_joins sid receiver chat s) = nextOid s /\
  users (with_joins sid receiver chat s) = users s /\
  onlineUsers (with_joins sid receiver chat s) = onlineUsers s.
Proof.
  unfold with_joins. destruct (receiverSocket _ _); repeat split; reflexivity.
Qed.

Lemma join_chat_run sid data s :
  run (join_chat sid data) s =
    match resolve_or_create (jd_senderId data) (jd_receiverId data) s with
    | (Some chat, s1, _) =>
        let cid := chat_id chat in
        let msgs := history s1 cid in
        (with_joins sid (jd_receiverId data) chat s1,
         [(ToSocket sid, chat_joined cid); (ToSocket sid, chat_history msgs)] ++
         match receiverSocket (set_sockets (alter (joined cid) sid) s1)
                 (jd_receiverId data) with
         | Some r => [(ToSocket r, chat_joined cid); (ToSocket r, chat_history msgs)]
         | None => []
         end)
    | (None, s1, _) => (s1, [join_failed sid])
    end.
Proof.
  unfold run, join_chat, try_catch. unfold mbind at 1. unfold M_bind at 1. unfold bind at 1.
  rewrite resolve_or_create_eq.
  destruct (oid_ok _ && oid_ok _); [|reflexivity].
  destruct (find _ _) as [c|]; unfold with_joins; unfold_db; unfold_M; cbn;
    destruct (receiverSocket _ _); reflexivity.
Qed.

Lemma accept_chat_run sid data s :
  run (accept_chat sid data) s =
    (set_sockets (alter (joined (ad_chatId data)) sid) s,
     if oid_ok (ad_chatId data)
     then [(ToSocket sid, chat_history (history s (oid_str (ad_chatId data))))]
     else []).
Proof.
  unfold run, accept_chat. unfold_db. unfold_M. cbn.
  destruct (oid_ok _); reflexivity.
Qed.

Lemma user_online_run sid uid s :
  run (user_online sid uid) s =
    (set_sockets (alter (fun sk => mkSocket (Some uid) (rooms sk)) sid)
       (set_onlineUsers (insert uid sid) s),
     [(ToAll, user_status uid true)]).
Proof. reflexivity. Qed.

Lemma disconnect_run sk s :
  run (disconnect sk) s =
    match userId sk with
    | Some uid =>
        if truthy uid
        then (set_onlineUsers (delete uid) s, [(ToAll, user_status uid false)])
        else (s, [])
    | None => (s, [])
    end.
Proof.
  unfold run, disconnect. destruct (userId sk) as [uid|]; [|reflexivity].
  destruct (truthy uid); reflexivity.
Qed.

Lemma resolve_chat_by_pair data s :
  by_pair data = true ->
  resolve_chat data s = resolve_or_create (sd_senderId data) (sd_receiverId data) s.
Proof.
  unfold by_pair, resolve_chat, resolve_or_create.
  destruct (sd_chatId data) as [cid|]; [|reflexivity].
  destruct (truthy cid); [discriminate|reflexivity].
Qed.

(** *** One step of the dispatcher *)

Lemma step_eq s e :
  step s e =
    match sockets s !! event_socket e, e with
    | None, Connection sid =>
        (set_sockets (insert sid (mkSocket None {[ sid ]})) s, [])
    | Some _, Connection _ => (s, [])
    | None, _ => (s, [])
    | Some _, UserOnline sid uid => run (user_online sid uid) s
    | Some _, JoinChat sid data => run (join_chat sid data) s
    | Some _, AcceptChat sid data => run (accept_chat sid data) s
    | Some _, SendMessage now sid data => run (send_message now sid data) s
    | Some _, Typing sid data => run (typing sid data) s
    | Some _, StopTyping sid data => run (stop_typing sid data) s
    | Some _, MarkAsRead sid data => run (mark_as_read sid data) s
    | Some sk, Disconnect sid => run (disconnect sk) (set_sockets (delete sid) s)
    end.
Proof.
  unfold step, run, dispatch. unfold mbind, M_bind, bind, get.
  destruct (sockets s !! event_socket e) as [sk|], e; cbn;
    try reflexivity;
    match goal with
    | |- context [?m s] => destruct (m s) as [[? ?] ?]; reflexivity
    | |- context [disconnect ?k ?t] => destruct (disconnect k t) as [[? ?] ?]; reflexivity
    end.
Qed.

Lemma steps_app s es1 es2 :
  (steps s (es1 ++ es2)).1 = (steps (steps s es1).1 es2).1.
Proof.
  revert s. induction es1 as [|e r IH]; intros s; [reflexivity|].
  cbn. destruct (step s e) as [s1 o1]. specialize (IH s1).
  destruct (steps s1 (r ++ es2)), (steps s1 r). cbn in *. exact IH.
Qed.

Lemma key_update_first p f (l : list Chat) :
  (forall x, chat_key (f x) = chat_key x) ->
  chat_key <$> update_first p f l = chat_key <$> l.
Proof.
  intros Hf. induction l as [|x r IH]; [reflexivity|].
  cbn. destruct (p x); cbn; [rewrite Hf; reflexivity|]. rewrite IH. reflexivity.
Qed.

(** The chats after one event: the same keys, or one more chat, made for a
    pair that, when the event resolves by pair, no stored chat holds. *)
Lemma step_chats s e :
  let s' := (step s e).1 in
  (nextOid s <= nextOid s')%nat /\
  (chat_key <$> chats s' = chat_key <$> chats s \/
   exists a b,
     chat_key <$> chats s' = (chat_key <$> chats s) ++ [(new_oid (nextOid s), [a; b])] /\
     (resolves_by_pair e = true -> find (has_all a b) (chats s) = None)).
Proof.
  cbn zeta. rewrite step_eq.
  destruct (sockets s !! event_socket e) as [sk|], e; cbn [fst];
    try (rewrite ?user_online_run; unfold run, typing, stop_typing, emit; cbn;
         split; [lia|left; reflexivity]).
  - (* join_chat *)
    rewrite join_chat_run, resolve_or_create_eq.
    destruct (oid_ok _ && oid_ok _); [|split; [cbn; lia|left; reflexivity]].
    destruct (find _ _) as [c|] eqn:Hf; cbn [fst].
    + destruct (with_joins_db sid (jd_receiverId data) c s) as (Hc & _ & Hn & _).
      rewrite Hc, Hn. split; [lia|left; reflexivity].
    + destruct (with_joins_db sid (jd_receiverId data)
                  (created s (jd_senderId data) (jd_receiverId data))
                  (with_chat (created s (jd_senderId data) (jd_receiverId data)) s))
        as (Hc' & _ & Hn' & _).
      rewrite Hc', Hn'. cbn. split; [lia|right].
      exists (oid_str (jd_senderId data)), (oid_str (jd_receiverId data)).
      rewrite fmap_app. split; [reflexivity|]. intros _. exact Hf.
  - (* accept_chat *)
    rewrite accept_chat_run. split; [cbn; lia|left; reflexivity].
  - (* send_message *)
    rewrite send_message_run.
    destruct (sd_text data) as [|body|]; try (split; [cbn; lia|left; reflexivity]).
    destruct (trim body); [split; [cbn; lia|left; reflexivity]|].
    destruct (resolve_chat data s) as [[[chat|] s1] o1] eqn:Hr;
      destruct (resolve_chat_cases _ _ _ _ _ Hr) as [_ Hcase]; unfold resolved in Hcase.
    2:{ subst s1. split; [cbn; lia|left; reflexivity]. }
    assert (Hs1 : (nextOid s <= nextOid s1)%nat /\
      (chat_key <$> chats s1 = chat_key <$> chats s \/
       exists a b,
         chat_key <$> chats s1 = (chat_key <$> chats s) ++ [(new_oid (nextOid s), [a; b])] /\
         (by_pair data = true -> find (has_all a b) (chats s) = None))).
    { destruct Hcase as [[-> _]|(-> & -> & Ha & Hb)]; [split; [lia|left; reflexivity]|].
      cbn. split; [lia|right].
      exists (oid_str (sd_senderId data)), (oid_str (sd_receiverId data)).
      rewrite fmap_app. split; [reflexivity|]. intros Hp.
      rewrite (resolve_chat_by_pair _ _ Hp), resolve_or_create_eq, Ha, Hb in Hr.
      cbn in Hr. destruct (find _ _); [|reflexivity].
      injection Hr as _ Hr. apply (f_equal nextOid) in Hr. cbn in Hr. lia. }
    destruct Hs1 as [Hn Hk].
    destruct (with_joins_db sid (sd_receiverId data) chat s1) as (Hc & _ & Hn' & _).
    destruct (oid_ok (sd_senderId data)); cbn [fst].
    + unfold send_outcome.
      destruct (receiverSocketId _ _); cbn [fst chats nextOid set_messages set_chats bump_oid];
        rewrite key_update_first by reflexivity; rewrite Hc, Hn'; (split; [lia|exact Hk]).
    + rewrite Hc, Hn'. split; [lia|exact Hk].
  - (* mark_as_read *)
    rewrite mark_as_read_eq.
    repeat (match goal with |- context [if ?b then _ else _] => destruct b end
           || match goal with |- context [match ?o with Some _ => _ | None => _ end] => destruct o end);
      split; cbn; try lia; left; reflexivity.
  - (* disconnect *)
    rewrite disconnect_run. destruct (userId sk) as [uid|]; [|split; [cbn; lia|left; reflexivity]].
    destruct (truthy uid); split; cbn; try lia; left; reflexivity.
Qed.

(** The messages after one event: untouched, one message marked read, or
    one new message, still [sent] or already [delivered]. *)
Lemma step_messages_shape s e :
  let s' := (step s e).1 in
  (nextOid s <= nextOid s')%nat /\
  (messages s' = messages s \/
   (exists mid m u,
      find_message mid (messages s) = Some m /\
      messages s' =
        update_first (fun d => String.eqb (msg_id d) (msg_id m)) (mark_read u)
          (messages s)) \/
   (exists m k,
      (nextOid s <= k < nextOid s')%nat /\ msg_id m = new_oid k /\ status m = sent /\
      (messages s' = messages s ++ [m] \/
       messages s' =
         update_first (fun d => String.eqb (msg_id d) (msg_id m)) mark_delivered
           (messages s ++ [m])))).
Proof.
  cbn zeta. rewrite step_eq.
  destruct (sockets s !! event_socket e) as [sk|], e; cbn [fst];
    try (rewrite ?user_online_run; unfold run, typing, stop_typing, emit; cbn;
         split; [lia|left; reflexivity]).
  - (* join_chat *)
    rewrite join_chat_run, resolve_or_create_eq.
    destruct (oid_ok _ && oid_ok _); [|split; [cbn; lia|left; reflexivity]].
    destruct (find _ _) as [c|] eqn:Hf; cbn [fst].
    + destruct (with_joins_db sid (jd_receiverId data) c s) as (_ & Hm & Hn & _).
      rewrite Hm, Hn. split; [lia|left; reflexivity].
    + destruct (with_joins_db sid (jd_receiverId data)
                  (created s (jd_senderId data) (jd_receiverId data))
                  (with_chat (created s (jd_senderId data) (jd_receiverId data)) s))
        as (_ & Hm & Hn & _).
      rewrite Hm, Hn. cbn. split; [lia|left; reflexivity].
  - (* accept_chat *)
    rewrite accept_chat_run. split; [cbn; lia|left; reflexivity].
  - (* send_message *)
    rewrite send_message_run.
    destruct (sd_text data) as [|body|]; try (split; [cbn; lia|left; reflexivity]).
    destruct (trim body); [split; [cbn; lia|left; reflexivity]|].
    destruct (resolve_chat data s) as [[[chat|] s1] o1] eqn:Hr;
      destruct (resolve_chat_cases _ _ _ _ _ Hr) as [_ Hcase]; unfold resolved in Hcase.
    2:{ subst s1. split; [cbn; lia|left; reflexivity]. }
    assert (Hs1 : (nextOid s <= nextOid s1)%nat /\ messages s1 = messages s).
    { destruct Hcase as [[-> _]|(-> & -> & _)]; cbn; split; (lia || reflexivity). }
    destruct Hs1 as [Hn Hms].
    destruct (with_joins_db sid (sd_receiverId data) chat s1) as (_ & Hm & Hn' & _).
    destruct (oid_ok (sd_senderId data)); cbn [fst];
      [|rewrite Hm, Hn', Hms; split; [lia|left; reflexivity]].
    unfold send_outcome.
    destruct (receiverSocketId _ _);
      cbn [fst messages nextOid set_messages set_chats bump_oid];
      rewrite Hm, Hn', Hms; (split; [lia|right; right]);
      exists (sent_message now data body chat s1), (nextOid s1);
      (split; [lia|]); (split; [reflexivity|]); (split; [reflexivity|]);
      [right|left]; reflexivity.
  - (* mark_as_read *)
    rewrite mark_as_read_eq.
    destruct (oid_ok (rd_messageId data)); [|split; [cbn; lia|left; reflexivity]].
    destruct (find_message _ _) as [m|] eqn:Hm; [|split; [cbn; lia|left; reflexivity]].
    destruct (includes _ _); [split; [cbn; lia|left; reflexivity]|].
    destruct (oid_ok (rd_userId data)); [|split; [cbn; lia|left; reflexivity]].
    cbn. split; [lia|right; left].
    exists (oid_str (rd_messageId data)), m, (oid_str (rd_userId data)).
    split; [exact Hm|reflexivity].
  - (* disconnect *)
    rewrite disconnect_run. destruct (userId sk) as [uid|]; [|split; [cbn; lia|left; reflexivity]].
    destruct (truthy uid); split; cbn; try lia; left; reflexivity.
Qed.

Lemma elem_of_update_first {A} (p : A -> bool) f (l : list A) x' :
  x' ∈ update_first p f l -> x' ∈ l \/ exists x, x ∈ l /\ x' = f x.
Proof.
  induction l as [|x r IH]; [intros H; left; exact H|].
  cbn. destruct (p x).
  - intros [->|H]%elem_of_cons.
    + right. exists x. split; [left|reflexivity].
    + left. right. exact H.
  - intros [->|H]%elem_of_cons; [left; left|].
    destruct (IH H) as [?|(y & ? & ->)]; [left; right; assumption|].
    right. exists y. split; [right; assumption|reflexivity].
Qed.

Lemma find_message_none mid (ms : list Message) :
  (forall m, m ∈ ms -> msg_id m <> mid) -> find_message mid ms = None.
Proof.
  intros H. unfold find_message. induction ms as [|x r IH]; [reflexivity|].
  cbn. destruct (String.eqb_spec (msg_id x) mid) as [E|_].
  - exfalso. apply (H x); [left|exact E].
  - apply IH. intros m Hm. apply H. right. exact Hm.
Qed.

(** With a driver that never repeats an [_id], the next ones are free. *)
Lemma ids_known_fresh s k :
  (forall i j, new_oid i = new_oid j -> i = j) ->
  ids_known s -> (nextOid s <= k)%nat ->
  find_message (new_oid k) (messages s) = None.
Proof.
  intros Hinj Hs Hk. apply find_message_none. intros m Hm E.
  destruct (Hs m Hm) as (j & Hj & Ej). rewrite Ej in E. apply Hinj in E. lia.
Qed.

Lemma step_messages s e :
  (forall i j, new_oid i = new_oid j -> i = j) ->
  ids_known s ->
  extends msg_le (messages s) (messages (step s e).1) /\ ids_known (step s e).1.
Proof.
  intros Hinj Hs.
  destruct (step_messages_shape s e) as [Hn [Hsame|[(mid & m & u & Hm & Hupd)|(m & k & Hk & Hid & Hst & Hnew)]]].
  - rewrite Hsame. split; [apply extends_refl, msg_le_refl|].
    intros m Hm. rewrite Hsame in Hm. destruct (Hs m Hm) as (k & Hk & E).
    exists k. split; [lia|exact E].
  - rewrite Hupd. split.
    + apply extends_update_first; [apply msg_le_refl|].
      intros x Hx. pose proof (find_message_id _ _ _ Hm) as Hid.
      unfold find_message in Hm. rewrite <- Hid in Hm. rewrite Hm in Hx.
      injection Hx as <-. unfold msg_le, mark_read, status_le. cbn.
      repeat split; try reflexivity.
      * destruct (status m); cbn; lia.
      * apply prefix_app_r. reflexivity.
    + intros x Hx. rewrite Hupd in Hx.
      apply elem_of_update_first in Hx as [Hx|(y & Hy & ->)].
      * destruct (Hs x Hx) as (k & Hk & E). exists k. split; [lia|exact E].
      * destruct (Hs y Hy) as (k & Hk & E). exists k. split; [lia|exact E].
  - assert (Hfresh : find_message (msg_id m) (messages s) = None).
    { rewrite Hid. apply ids_known_fresh; [exact Hinj|exact Hs|lia]. }
    assert (Hknown : forall x, x ∈ messages s ++ [m] ->
              exists j, (j < nextOid (step s e).1)%nat /\ msg_id x = new_oid j).
    { intros x [Hx| ->%list_elem_of_singleton]%elem_of_app.
      - destruct (Hs x Hx) as (j & Hj & E). exists j. split; [lia|exact E].
      - exists k. split; [lia|exact Hid]. }
    destruct Hnew as [Hnew|Hnew]; rewrite Hnew; split.
    + apply extends_snoc, msg_le_refl.
    + intros x Hx. rewrite Hnew in Hx. auto.
    + eapply extends_trans; [apply msg_le_trans|apply (extends_snoc _ _ m), msg_le_refl|].
      apply extends_update_first; [apply msg_le_refl|].
      intros x Hx. unfold find_message in Hfresh. rewrite find_app, Hfresh in Hx.
      cbn in Hx. rewrite String.eqb_refl in Hx. injection Hx as <-.
      unfold msg_le, mark_delivered, status_le. cbn. rewrite Hst.
      repeat split; try reflexivity. cbn. lia.
    + intros x Hx. rewrite Hnew in Hx.
      apply elem_of_update_first in Hx as [Hx|(y & Hy & ->)]; [auto|].
      apply (Hknown y Hy).
Qed.

Lemma steps_messages s es :
  (forall i j, new_oid i = new_oid j -> i = j) ->
  ids_known s ->
  extends msg_le (messages s) (messages (steps s es).1) /\ ids_known (steps s es).1.
Proof.
  intros Hinj. revert s. induction es as [|e r IH]; intros s Hs.
  - split; [apply extends_refl, msg_le_refl|exact Hs].
  - cbn. destruct (step_messages s e Hinj Hs) as [H1 H2].
    destruct (step s e) as [s1 o1]. cbn in *.
    destruct (IH s1 H2) as [H3 H4]. destruct (steps s1 r) as [s2 o2]. cbn in *.
    split; [|exact H4]. eapply extends_trans; [apply msg_le_trans|exact H1|exact H3].
Qed.

(** Every store the server can reach from an empty one is well formed. *)
Lemma reachable_ids_known us es :
  driver_ok -> ids_known (steps (initial us) es).1.
Proof.
  intros Hinj. apply steps_messages; [exact Hinj|].
  intros m Hm. cbn in Hm. apply elem_of_nil in Hm. destruct Hm.
Qed.

(** ** One chat per pair *)

Lemma same_pair_has_all a b (c : Chat) :
  same_pair [a; b] (participants c) -> has_all a b c = true.
Proof.
  intros H. unfold has_all.
  rewrite !bool_decide_eq_true_2; [reflexivity| |]; apply H.
  - right. left.
  - left.
Qed.

Lemma has_all_comm a b c : has_all a b c = has_all b a c.
Proof. unfold has_all. apply andb_comm. Qed.

Lemma find_ext {A} (p q : A -> bool) l :
  (forall x, p x = q x) -> find p l = find q l.
Proof.
  intros H. induction l as [|x r IH]; [reflexivity|]. cbn. rewrite H, IH. reflexivity.
Qed.

Lemma find_none_elem {A} (p : A -> bool) l x :
  find p l = None -> x ∈ l -> p x = false.
Proof.
  intros H Hx. apply list_elem_of_In in Hx. exact (find_none p l H x Hx).
Qed.

Lemma pairs_unique_key cs cs' :
  chat_key <$> cs' = chat_key <$> cs -> pairs_unique cs -> pairs_unique cs'.
Proof.
  intros Hk Hu i j c1 c2 H1 H2 Hp.
  assert (Hl : forall n c', cs' !! n = Some c' ->
            exists c, cs !! n = Some c /\ participants c = participants c').
  { intros n c' Hn. apply (f_equal (fun l => l !! n)) in Hk.
    rewrite !list_lookup_fmap, Hn in Hk. cbn in Hk.
    destruct (cs !! n) as [c|]; [|discriminate]. exists c. split; [reflexivity|].
    cbn in Hk. injection Hk as _ Hk. symmetry. exact Hk. }
  destruct (Hl i c1 H1) as (d1 & Hd1 & E1), (Hl j c2 H2) as (d2 & Hd2 & E2).
  apply (Hu i j d1 d2 Hd1 Hd2). rewrite E1, E2. exact Hp.
Qed.

Lemma pairs_unique_snoc cs cs' kid a b :
  chat_key <$> cs' = (chat_key <$> cs) ++ [(kid, [a; b])] ->
  find (has_all a b) cs = None ->
  pairs_unique cs -> pairs_unique cs'.
Proof.
  intros Hk Hnone Hu.
  assert (Hlen : length cs' = S (length cs)).
  { apply (f_equal length) in Hk. rewrite length_app, !length_fmap in Hk.
    cbn in Hk. lia. }
  assert (Hl : forall n c', cs' !! n = Some c' ->
            (exists c, (n < length cs)%nat /\ cs !! n = Some c /\
                       participants c = participants c') \/
            (n = length cs /\ participants c' = [a; b])).
  { intros n c' Hn. apply (f_equal (fun l => l !! n)) in Hk.
    rewrite list_lookup_fmap, Hn in Hk. cbn in Hk.
    destruct (decide (n < length cs)%nat) as [Hlt|Hge].
    - rewrite lookup_app_l in Hk by (rewrite length_fmap; exact Hlt).
      rewrite list_lookup_fmap in Hk.
      destruct (cs !! n) as [c|]; [|discriminate]. left. exists c.
      cbn in Hk. injection Hk as _ Hk. auto.
    - apply lookup_lt_Some in Hn. right. assert (n = length cs) as -> by lia.
      split; [reflexivity|].
      rewrite lookup_app_r in Hk by (rewrite length_fmap; lia).
      rewrite length_fmap, Nat.sub_diag in Hk. cbn in Hk. injection Hk as _ Hk.
      exact Hk. }
  assert (Hclash : forall c p, c ∈ cs -> same_pair [a; b] p -> participants c = p -> False).
  { intros c p Hc Hp <-. apply same_pair_has_all in Hp.
    rewrite (find_none_elem _ _ _ Hnone Hc) in Hp. discriminate. }
  intros i j c1 c2 H1 H2 Hp.
  destruct (Hl i c1 H1) as [(d1 & Hi & Hd1 & E1)|[-> E1]],
           (Hl j c2 H2) as [(d2 & Hj & Hd2 & E2)|[-> E2]].
  - apply (Hu i j d1 d2 Hd1 Hd2). rewrite E1, E2. exact Hp.
  - exfalso. apply (Hclash d1 (participants c1)); [|rewrite <- E2|exact E1].
    + apply list_elem_of_lookup. eauto.
    + intros u. symmetry. apply Hp.
  - exfalso. apply (Hclash d2 (participants c2)); [|rewrite <- E1; exact Hp|exact E2].
    apply list_elem_of_lookup. eauto.
  - reflexivity.
Qed.

Lemma step_pairs_unique s e :
  resolves_by_pair e = true ->
  pairs_unique (chats s) -> pairs_unique (chats (step s e).1).
Proof.
  intros He Hu. destruct (step_chats s e) as [_ [Hk|(a & b & Hk & Hn)]].
  - exact (pairs_unique_key _ _ Hk Hu).
  - exact (pairs_unique_snoc _ _ _ _ _ Hk (Hn He) Hu).
Qed.

Lemma step_chats_extend s e : extends chat_le (chats s) (chats (step s e).1).
Proof.
  assert (Hext : forall (cs cs' : list Chat) t,
            chat_key <$> cs' = (chat_key <$> cs) ++ t -> extends chat_le cs cs').
  { intros cs cs' t Hk. exists (take (length cs) cs'), (drop (length cs) cs').
    split; [symmetry; apply take_drop|].
    apply Forall2_same_length_lookup_2.
    - apply (f_equal length) in Hk. rewrite length_app, !length_fmap in Hk.
      rewrite length_take. lia.
    - intros i x y Hx Hy. apply lookup_take_Some in Hy as [Hy Hi].
      apply (f_equal (fun l => l !! i)) in Hk.
      rewrite list_lookup_fmap, Hy, lookup_app_l in Hk by (rewrite length_fmap; exact Hi).
      rewrite list_lookup_fmap, Hx in Hk. cbn in Hk.
      unfold chat_le. congruence. }
  destruct (step_chats s e) as [_ [Hk|(a & b & Hk & _)]].
  - apply (Hext _ _ []). rewrite app_nil_r. exact Hk.
  - exact (Hext _ _ _ Hk).
Qed.

Lemma steps_chats_extend s es : extends chat_le (chats s) (chats (steps s es).1).
Proof.
  revert s. induction es as [|e r IH]; intros s; [apply extends_refl, chat_le_refl|].
  cbn. pose proof (step_chats_extend s e) as H1. destruct (step s e) as [s1 o1].
  specialize (IH s1). destruct (steps s1 r) as [s2 o2]. cbn in *.
  eapply extends_trans; [apply chat_le_trans|exact H1|exact IH].
Qed.

Lemma steps_pairs_unique s es :
  forallb resolves_by_pair es = true ->
  pairs_unique (chats s) -> pairs_unique (chats (steps s es).1).
Proof.
  revert s. induction es as [|e r IH]; intros s Hes Hu; [exact Hu|].
  cbn in Hes. apply andb_true_iff in Hes as [He Hr].
  cbn. pose proof (step_pairs_unique s e He Hu) as H1. destruct (step s e) as [s1 o1].
  specialize (IH s1 Hr H1). destruct (steps s1 r) as [s2 o2]. exact IH.
Qed.




Lemma resolve_chat_by_id data cid s :
  sd_chatId data = Some cid -> truthy cid = true ->
  resolve_chat data s =
    if oid_ok cid then
      match find (fun c => String.eqb (chat_id c) (oid_str cid)) (chats s) with
      | Some c => (Some c, s, [])
      | None =>
          if oid_ok (sd_senderId data) && oid_ok (sd_receiverId data)
          then (Some (created s (sd_senderId data) (sd_receiverId data)),
                with_chat (created s (sd_senderId data) (sd_receiverId data)) s, [])
          else (None, s, [])
      end
    else (None, s, []).
Proof.
  intros Hc Ht. unfold resolve_chat. rewrite Hc, Ht.
  unfold mbind, M_bind, bind. rewrite ChatModel_findById_eq.
  destruct (oid_ok cid); [|reflexivity].
  rewrite create_if_missing_eq. destruct (find _ _); [reflexivity|].
  destruct (_ && _); reflexivity.
Qed.



Lemma by_pair_lookups_succeed s es :
  forallb resolves_by_pair es = true -> lookups_succeed s es.
Proof.
  revert s. induction es as [|e r IH]; intros s Hes; [exact I|].
  cbn in Hes. apply andb_true_iff in Hes as [He Hr]. split; [|apply IH, Hr].
  destruct e; cbn in *; auto.
Qed.


Lemma advance_find a b s :
  advance (mkCall a b AtFind) s =
    if oid_ok a && oid_ok b
    then (Some (match find (has_all (oid_str a) (oid_str b)) (chats s) with
                | Some c => Resolved c
                | None => AtCreate
                end), s, [])
    else (Some Failed, s, []).
Proof.
  unfold advance, try_catch. cbn [call_pc call_sender call_receiver].
  unfold mbind, M_bind, bind. rewrite find_by_pair_eq.
  destruct (oid_ok a && oid_ok b); reflexivity.
Qed.

Lemma advance_create a b s :
  advance (mkCall a b AtCreate) s =
    if oid_ok a && oid_ok b
    then (Some (Resolved (created s a b)), with_chat (created s a b) s, [])
    else (Some Failed, s, []).
Proof.
  unfold advance, try_catch. cbn [call_pc call_sender call_receiver].
  unfold mbind, M_bind, bind. rewrite create_if_missing_eq.
  destruct (oid_ok a && oid_ok b); reflexivity.
Qed.

(** A call that runs alone, its two steps back to back, does what the
    handlers' find-then-create sequence does. *)
Lemma run_schedule_alone a b s :
  run_schedule s [start a b] [0; 0]%nat =
    match resolve_or_create a b s with
    | (Some c, s1, _) => (s1, [mkCall a b (Resolved c)])
    | (None, s1, _) => (s1, [mkCall a b Failed])
    end.
Proof.
  rewrite resolve_or_create_eq.
  unfold run_schedule, advance_nth, start. cbn [lookup list_lookup].
  rewrite advance_find.
  destruct (oid_ok a && oid_ok b) eqn:E; cbn [lookup list_lookup insert list_insert].
  - destruct (find _ _) as [c|]; [reflexivity|].
    cbn [call_sender call_receiver]. rewrite advance_create. rewrite E. reflexivity.
  - reflexivity.
Qed.

(** Two calls for one pair that has no chat yet, each at its [findOne]
    before either reaches its [create]: both find nothing and both create.
    Whatever the store and the pair, the schedule 0, 1, 0, 1 appends two
    chats for the pair. *)
Lemma overlapping_calls_create_twice a b s :
  oid_ok a && oid_ok b = true ->
  find (has_all (oid_str a) (oid_str b)) (chats s) = None ->
  run_schedule s [start a b; start b a] [0; 1; 0; 1]%nat =
    (mkState
       (chats s ++ [mkChat (new_oid (nextOid s)) [oid_str a; oid_str b] None;
                    mkChat (new_oid (S (nextOid s))) [oid_str b; oid_str a] None])
       (messages s) (users s) (onlineUsers s) (sockets s) (S (S (nextOid s))),
     [mkCall a b (Resolved (mkChat (new_oid (nextOid s)) [oid_str a; oid_str b] None));
      mkCall b a (Resolved (mkChat (new_oid (S (nextOid s))) [oid_str b; oid_str a] None))]).
Proof.
  intros Hok Hnone.
  assert (Hok' : oid_ok b && oid_ok a = true) by (rewrite andb_comm; exact Hok).
  assert (Hnone' : find (has_all (oid_str b) (oid_str a)) (chats s) = None).
  { rewrite (find_ext (has_all (oid_str b) (oid_str a)) (has_all (oid_str a) (oid_str b)))
      by (intros x; apply has_all_comm).
    exact Hnone. }
  unfold run_schedule, advance_nth, start.
  cbn [lookup list_lookup]. rewrite advance_find, Hok, Hnone.
  cbn [lookup list_lookup insert list_insert call_sender call_receiver].
  rewrite advance_find, Hok', Hnone'.
  cbn [lookup list_lookup insert list_insert call_sender call_receiver].
  rewrite advance_create, Hok.
  cbn [lookup list_lookup insert list_insert call_sender call_receiver].
  rewrite advance_create, Hok'.
  cbn [lookup list_lookup insert list_insert call_sender call_receiver].
  unfold with_chat, created, bump_oid, set_chats. cbn [chats messages users onlineUsers sockets nextOid].
  rewrite <- app_assoc. reflexivity.
Qed.

(** ** Chat history *)

Lemma insert_by_createdAt_perm m l : insert_by_createdAt m l ≡ₚ m :: l.
Proof.
  induction l as [|x r IH]; [reflexivity|].
  cbn. destruct (createdAt m <=? createdAt x); [reflexivity|].
  rewrite IH. apply Permutation_swap.
Qed.

Lemma sort_by_createdAt_perm l : sort_by_createdAt l ≡ₚ l.
Proof.
  induction l as [|x r IH]; [reflexivity|].
  cbn. rewrite insert_by_createdAt_perm, IH. reflexivity.
Qed.

Lemma insert_by_createdAt_sorted m l :
  StronglySorted older l -> StronglySorted older (insert_by_createdAt m l).
Proof.
  induction 1 as [|x r Hr IH Hx]; [repeat constructor|].
  cbn. destruct (Z.leb_spec (createdAt m) (createdAt x)) as [Hle|Hgt].
  - constructor; [constructor; assumption|].
    constructor; [exact Hle|].
    eapply Forall_impl; [exact Hx|]. unfold older. intros; lia.
  - constructor; [exact IH|].
    rewrite insert_by_createdAt_perm. constructor; [unfold older; lia|exact Hx].
Qed.

Lemma sort_by_createdAt_sorted l : StronglySorted older (sort_by_createdAt l).
Proof.
  induction l as [|x r IH]; [constructor|]. apply insert_by_createdAt_sorted, IH.
Qed.

Lemma sorted_split {A} (R : A -> A -> Prop) (l1 l2 : list A) x y :
  StronglySorted R (l1 ++ l2) -> x ∈ l1 -> y ∈ l2 -> R x y.
Proof.
  induction l1 as [|a r IH]; intros Hs Hx Hy; [inversion Hx|].
  cbn in Hs. apply StronglySorted_inv in Hs as [Hs Ha].
  apply elem_of_cons in Hx as [->|Hx]; [|exact (IH Hs Hx Hy)].
  rewrite Forall_forall in Ha. apply Ha, elem_of_app. right. exact Hy.
Qed.

Lemma history_docs s cid : pm_doc <$> history s cid = take 50 (conversation s cid).
Proof.
  unfold history. generalize (take 50 (conversation s cid)).
  intros l. induction l as [|x r IH]; [reflexivity|]. cbn. f_equal. exact IH.
Qed.

(** C2, as amended — [chat_history] carries the messages of the chat
    oldest first, and when the chat holds more than 50 messages it carries
    the 50 oldest ones: every message left out is at least as recent as
    every message delivered.  Both [join_chat] and [accept_chat] send
    exactly this sequence. *)
Theorem C2_history_is_the_oldest_fifty s cid :
  let all := conversation s cid in
  let sent_docs := pm_doc <$> history s cid in
  (forall m, m ∈ all <-> m ∈ messages s /\ chatId m = cid) /\
  StronglySorted older all /\
  sent_docs = take 50 all /\
  (forall m m', m ∈ sent_docs -> m' ∈ drop 50 all -> older m m') /\
  (forall sid data t ms,
     (t, chat_history ms) ∈ (run (accept_chat sid data) s).2 ->
     ms = history s (oid_str (ad_chatId data))) /\
  (forall sid data t ms,
     (t, chat_history ms) ∈ (run (join_chat sid data) s).2 ->
     exists chat s1 o,
       resolve_or_create (jd_senderId data) (jd_receiverId data) s = (Some chat, s1, o) /\
       ms = history s (chat_id chat)).
Proof.
  cbn zeta. pose proof (sort_by_createdAt_sorted
    (filter (fun m => chatId m = cid) (messages s))) as Hsorted.
  fold (conversation s cid) in Hsorted.
  split.
  { intros m. unfold conversation.
    rewrite sort_by_createdAt_perm, list_elem_of_filter. tauto. }
  split; [exact Hsorted|]. split; [apply history_docs|]. split.
  { intros m m'. rewrite history_docs. intros Hm Hm'.
    rewrite <- (take_drop 50 (conversation s cid)) in Hsorted.
    exact (sorted_split _ _ _ _ _ Hsorted Hm Hm'). }
  split.
  - intros sid data t ms. rewrite accept_chat_run. cbn [snd].
    destruct (oid_ok _); [|intros H; inversion H].
    intros H%list_elem_of_singleton. congruence.
  - intros sid data t ms. rewrite join_chat_run.
    destruct (resolve_or_create _ _ s) as [[[chat|] s1] o] eqn:Hr; cbn [snd].
    + intros H. exists chat, s1, o. split; [reflexivity|].
      assert (Hsame : history s1 (chat_id chat) = history s (chat_id chat)).
      { rewrite resolve_or_create_eq in Hr. destruct (_ && _); [|discriminate].
        destruct (find _ _); injection Hr as _ <- _; reflexivity. }
      rewrite <- Hsame.
      apply elem_of_app in H as [H|H].
      * apply elem_of_cons in H as [H|H]; [discriminate|].
        apply list_elem_of_singleton in H. congruence.
      * destruct (receiverSocket _ _); [|inversion H].
        apply elem_of_cons in H as [H|H]; [discriminate|].
        apply list_elem_of_singleton in H. congruence.
    + intros H%list_elem_of_singleton. discriminate.
Qed.

(** ** Presence *)

(** C9, as amended — the presence map keeps one socket per identity.  When
    a socket bound to a (non-empty) identity disconnects, the identity's
    entry is removed and [user_status {userId, status: offline}] goes to
    all connections, whichever socket the entry named and whether or not
    other sockets of that identity are still connected. *)
Theorem C9_disconnect_clears_presence s sid sk uid :
  sockets s !! sid = Some sk ->
  userId sk = Some uid ->
  truthy uid = true ->
  let '(s', out) := step s (Disconnect sid) in
  onlineUsers s' = delete uid (onlineUsers s) /\
  sockets s' = delete sid (sockets s) /\
  out = [(ToAll, user_status uid false)] /\
  chats s' = chats s /\ messages s' = messages s.
Proof.
  intros Hsk Hu Ht. rewrite step_eq. cbn [event_socket]. rewrite Hsk.
  rewrite disconnect_run, Hu, Ht. repeat split; reflexivity.
Qed.

(** ** Sending, continued *)

Lemma update_first_snoc {A} (p : A -> bool) f (l : list A) x :
  exists l' x', update_first p f (l ++ [x]) = l' ++ [x'] /\
    length l' = length l /\ (x' = x \/ x' = f x).
Proof.
  induction l as [|a r (l' & x' & E & Hlen & Hx)].
  - cbn. destruct (p x); [exists [], (f x)|exists [], x]; auto.
  - cbn. destruct (p a).
    + exists (f a :: r), x. auto.
    + exists (a :: l'), x'. rewrite E. cbn. auto.
Qed.

Lemma update_first_fresh {A} (p : A -> bool) f (l : list A) x :
  find p l = None -> p x = true -> update_first p f (l ++ [x]) = l ++ [f x].
Proof.
  induction l as [|a r IH]; cbn; [intros _ ->; reflexivity|].
  destruct (p a); [discriminate|]. intros H1 H2. rewrite IH; auto.
Qed.

(** The message a [send_message] stores is the last of the collection,
    whatever became of its status. *)
Lemma send_outcome_stored now sid data body chat s1 :
  let '(s', out) := send_outcome now sid data body chat s1 in
  exists m, last (messages s') = Some m /\
    length (messages s') = S (length (messages s1)) /\
    chatId m = chat_id chat /\ senderId m = oid_str (sd_senderId data) /\
    text m = trim body /\ readBy m = [oid_str (sd_senderId data)] /\
    (exists pm, (ToRoom (chat_id chat), receive_message pm) ∈ out) /\
    forallb (fun e => negb (is_message_error e)) out = true.
Proof.
  unfold send_outcome.
  destruct (with_joins_db sid (sd_receiverId data) chat s1) as (_ & Hm & _).
  set (m := sent_message now data body chat s1).
  destruct (receiverSocketId _ _);
    cbn [messages set_messages set_chats bump_oid]; rewrite Hm.
  - destruct (update_first_snoc (fun d => String.eqb (msg_id d) (msg_id m))
                mark_delivered (messages s1) m) as (l' & m' & -> & Hlen & Hm').
    exists m'. rewrite last_snoc, length_app, Hlen. cbn [length].
    split; [reflexivity|]. split; [lia|].
    assert (chatId m' = chatId m /\ senderId m' = senderId m /\ text m' = text m /\
            readBy m' = readBy m) as (-> & -> & -> & ->).
    { destruct Hm' as [->| ->]; repeat split; reflexivity. }
    subst m. cbn. rewrite trim_idempotent. repeat split; try reflexivity.
    eexists. left.
  - exists m. rewrite last_snoc, length_app. cbn [length].
    split; [reflexivity|]. split; [lia|].
    subst m. cbn. rewrite trim_idempotent. repeat split; try reflexivity.
    eexists. left.
Qed.



Lemma resolve_chat_frame data s chat s1 o1 :
  resolve_chat data s = (Some chat, s1, o1) ->
  messages s1 = messages s /\ onlineUsers s1 = onlineUsers s /\
  (nextOid s <= nextOid s1)%nat.
Proof.
  intros Hr. destruct (resolve_chat_cases _ _ _ _ _ Hr) as [_ [[-> _]|(_ & -> & _)]];
    cbn; auto.
Qed.

(** [send_ok] in terms of the payload: a text that does not trim to
    nothing, a chat resolved without a throw and a well-formed sender. *)
Lemma send_ok_iff now sid data s :
  send_ok now sid data s <->
  exists body chat s1 o,
    sd_text data = TextStr body /\ trim body <> [] /\
    resolve_chat data s = (Some chat, s1, o) /\ oid_ok (sd_senderId data) = true.
Proof.
  unfold send_ok. rewrite send_message_run. split.
  - destruct (sd_text data) as [|body|]; try discriminate.
    destruct (trim body) as [|u r] eqn:Eb; [discriminate|].
    destruct (resolve_chat data s) as [[[chat|] s1] o] eqn:Hr; [|discriminate].
    destruct (oid_ok (sd_senderId data)); [|discriminate].
    intros _. exists body, chat, s1, o. rewrite Eb. auto.
  - intros (body & chat & s1 & o & -> & Hb & -> & ->).
    destruct (trim body); [congruence|].
    unfold send_outcome. destruct (receiverSocketId _ _); reflexivity.
Qed.

(** The delivery step of a message that went through reads the presence
    map and nothing else.  If the map names a socket for the receiver when
    the message is sent, the stored message is [delivered] and
    [message_delivered {messageId}] goes to the room of the chat; if the map
    has no entry for the receiver, the stored message stays [sent] and no
    [message_delivered] is emitted.  The driver is assumed never to repeat
    an [_id], and the stored [_id]s to come from it. *)
Lemma delivered_when_receiver_registered now sid data s :
  driver_ok ->
  ids_known s ->
  send_ok now sid data s ->
  let '(s', out) := run (send_message now sid data) s in
  exists m,
    messages s' = messages s ++ [m] /\
    senderId m = oid_str (sd_senderId data) /\
    readBy m = [oid_str (sd_senderId data)] /\
    match receiverSocketId s (sd_receiverId data) with
    | Some _ =>
        status m = delivered /\
        (ToRoom (chatId m), message_delivered (msg_id m)) ∈ out
    | None =>
        status m = sent /\
        forallb (fun e => negb (is_message_delivered e)) out = true
    end.
Proof.
  intros Hinj Hknown Hok.
  apply send_ok_iff in Hok as (body & chat & s1 & o & Ht & Hb & Hr & Hs).
  rewrite send_message_run, Ht. destruct (trim body) as [|u r]; [congruence|].
  rewrite Hr, Hs. unfold send_outcome.
  destruct (resolve_chat_frame _ _ _ _ _ Hr) as (Hm & Ho & Hn).
  destruct (with_joins_db sid (sd_receiverId data) chat s1) as (_ & Hm' & _).
  unfold receiverSocketId. rewrite Ho.
  destruct (onlineUsers s !! sd_receiverId data) as [rsid|];
    [destruct (truthy rsid)|];
    cbn [messages set_messages set_chats bump_oid]; rewrite Hm', Hm.
  - rewrite update_first_fresh.
    + eexists. split; [reflexivity|]. cbn. repeat split. right. left.
    + apply (ids_known_fresh s (nextOid s1) Hinj Hknown Hn).
    + cbn. apply String.eqb_refl.
  - eexists. split; [reflexivity|]. cbn. repeat split.
  - eexists. split; [reflexivity|]. cbn. repeat split.
Qed.

(** ** Status and readers only move forward *)


(** ** The store, event by event *)

(** Every event leaves the two collections as they are, appends a chat for
    a pair that had none, marks one message read, or stores one message. *)
Lemma step_store s e :
  let s' := (step s e).1 in
  store_same s s' \/ store_created s s' \/
  (exists sid data, e = MarkAsRead sid data /\ store_read data s s') \/
  store_sent s s'.
Proof.
  cbn zeta. rewrite step_eq.
  destruct (sockets s !! event_socket e) as [sk|], e; cbn [fst];
    try (left; rewrite ?user_online_run; unfold run, typing, stop_typing, emit;
         repeat split; reflexivity).
  - (* join_chat *)
    rewrite join_chat_run, resolve_or_create_eq.
    destruct (oid_ok (jd_senderId data)) eqn:Ea; [|left; repeat split; reflexivity].
    destruct (oid_ok (jd_receiverId data)) eqn:Eb; [|left; repeat split; reflexivity].
    cbn [andb]. destruct (find _ _) as [c|] eqn:Hf; cbn [fst].
    + destruct (with_joins_db sid (jd_receiverId data) c s) as (Hc & Hm & Hn & _).
      left. repeat split; assumption.
    + destruct (with_joins_db sid (jd_receiverId data)
                  (created s (jd_senderId data) (jd_receiverId data))
                  (with_chat (created s (jd_senderId data) (jd_receiverId data)) s))
        as (Hc & Hm & Hn & _).
      right. left. exists (jd_senderId data), (jd_receiverId data).
      rewrite Hc, Hm, Hn. repeat split; auto.
  - (* accept_chat *)
    rewrite accept_chat_run. left. repeat split; reflexivity.
  - (* send_message *)
    rewrite send_message_run.
    destruct (sd_text data) as [|body|]; try (left; repeat split; reflexivity).
    destruct (trim body) as [|u r] eqn:Eb; [left; repeat split; reflexivity|].
    destruct (resolve_chat data s) as [[[chat|] s1] o1] eqn:Hr;
      destruct (resolve_chat_cases _ _ _ _ _ Hr) as [_ Hcase].
    2:{ cbn in Hcase. subst s1. left. repeat split; reflexivity. }
    destruct (with_joins_db sid (sd_receiverId data) chat s1) as (Hc & Hm & Hn & _).
    destruct (oid_ok (sd_senderId data)) eqn:Hs; cbn [fst].
    + right. right. right. exists now, data, body, chat, s1.
      split; [rewrite Eb; discriminate|]. split; [exact Hs|]. split; [exact Hcase|].
      assert (Hms : messages s1 = messages s).
      { destruct Hcase as [[-> _]|(_ & -> & _)]; reflexivity. }
      cbn zeta. unfold send_outcome.
      destruct (receiverSocketId _ _);
        cbn [fst chats messages nextOid set_messages set_chats bump_oid];
        rewrite Hc, Hm, Hn, Hms; repeat split; auto.
    + destruct Hcase as [[-> _]|(_ & _ & Ha & _)]; [|congruence].
      left. repeat split; assumption.
  - (* mark_as_read *)
    rewrite mark_as_read_eq.
    destruct (oid_ok (rd_messageId data)); [|left; repeat split; reflexivity].
    destruct (find_message _ _) as [m|] eqn:Hm; [|left; repeat split; reflexivity].
    unfold includes. case_bool_decide as Hin; [left; repeat split; reflexivity|].
    destruct (oid_ok (rd_userId data)) eqn:Hu; [|left; repeat split; reflexivity].
    right. right. left. exists sid, data. split; [reflexivity|]. exists m.
    repeat split; auto.
  - (* disconnect *)
    rewrite disconnect_run. destruct (userId sk) as [uid|]; [|left; repeat split; reflexivity].
    destruct (truthy uid); left; repeat split; reflexivity.
Qed.

Lemma Forall_update_first {A} (P : A -> Prop) p f (l : list A) :
  Forall P l ->
  (forall x, find p l = Some x -> P x -> P (f x)) ->
  Forall P (update_first p f l).
Proof.
  induction 1 as [|x r Hx Hr IH]; intros Hf; [constructor|].
  cbn in *. destruct (p x) eqn:E.
  - constructor; [apply Hf; auto|exact Hr].
  - constructor; [exact Hx|]. apply IH, Hf.
Qed.

Lemma elem_of_update_first_hit {A} (p : A -> bool) f (l : list A) x' :
  x' ∈ update_first p f l ->
  x' ∈ l \/ exists x, x ∈ l /\ p x = true /\ x' = f x.
Proof.
  induction l as [|x r IH]; [intros H; left; exact H|].
  cbn. destruct (p x) eqn:E.
  - intros [->|H]%elem_of_cons.
    + right. exists x. split; [left|auto].
    + left. right. exact H.
  - intros [->|H]%elem_of_cons; [left; left|].
    destruct (IH H) as [?|(y & ? & ? & ->)]; [left; right; assumption|].
    right. exists y. split; [right; assumption|auto].
Qed.

Lemma fmap_update_first {A B} (g : A -> B) p f (l : list A) :
  (forall x, g (f x) = g x) -> g <$> update_first p f l = g <$> l.
Proof.
  intros Hf. induction l as [|x r IH]; [reflexivity|].
  cbn. destruct (p x); cbn; [rewrite Hf; reflexivity|]. rewrite IH. reflexivity.
Qed.

Lemma find_message_same mid (ms : list Message) m x :
  find_message mid ms = Some m ->
  find (fun d => String.eqb (msg_id d) (msg_id m)) ms = Some x -> x = m.
Proof.
  intros Hm Hx. pose proof (find_message_id _ _ _ Hm) as Hid. subst mid.
  unfold find_message in Hm. congruence.
Qed.

(** The chat a resolution returns is stored in the store it leaves. *)
Lemma resolved_stored data s chat s1 :
  resolved data s (Some chat) s1 ->
  chat ∈ chats s1 /\ messages s1 = messages s /\
  (chats s1 = chats s \/
   (chats s1 = chats s ++ [chat] /\ lastMessage chat = None /\
    participants chat = [oid_str (sd_senderId data); oid_str (sd_receiverId data)] /\
    oid_ok (sd_senderId data) = true /\ oid_ok (sd_receiverId data) = true)).
Proof.
  intros [[-> Hin]|(-> & -> & Ha & Hb)]; [auto|].
  cbn. split; [|split; [reflexivity|right; auto]].
  apply elem_of_app. right. left.
Qed.

(** *** Referential integrity *)

Lemma refs_ok_keys s :
  refs_ok s <->
  (forall k, k ∈ msg_ref <$> messages s -> k.2 ∈ chat_id <$> chats s) /\
  (forall c mid, c ∈ chats s -> lastMessage c = Some mid ->
     (mid, chat_id c) ∈ msg_ref <$> messages s).
Proof.
  unfold refs_ok. split; intros [H1 H2]; split.
  - intros k (m & -> & Hm)%list_elem_of_fmap. destruct (H1 m Hm) as (c & Hc & E).
    cbn. rewrite <- E. apply list_elem_of_fmap. eauto.
  - intros c mid Hc Hl. destruct (H2 c mid Hc Hl) as (m & Hm & <- & <-).
    apply list_elem_of_fmap. exists m. auto.
  - intros m Hm. assert (Hk : msg_ref m ∈ msg_ref <$> messages s)
      by (apply list_elem_of_fmap; eauto).
    apply H1, list_elem_of_fmap in Hk as (c & E & Hc). eauto.
  - intros c mid Hc Hl. apply (H2 c mid Hc), list_elem_of_fmap in Hl as (m & E & Hm).
    injection E as -> E. eauto.
Qed.

Lemma step_refs_ok s e : refs_ok s -> refs_ok (step s e).1.
Proof.
  intros Hs. apply refs_ok_keys in Hs as [H1 H2]. apply refs_ok_keys.
  destruct (step_store s e) as [(Hc & Hm & _)|[(a & b & _ & _ & _ & Hc & Hm & _)|
    [(rsid & rdata & He & m & _ & _ & _ & Hm & Hc & _)|
     (now & data & body & chat & s1 & _ & _ & Hres & Hc & Hm & _)]]].
  - rewrite Hc, Hm. auto.
  - rewrite Hc, Hm. split.
    + intros k Hk. rewrite fmap_app. apply elem_of_app. left. auto.
    + intros c mid [Hin| ->%list_elem_of_singleton]%elem_of_app Hl; [auto|discriminate].
  - rewrite Hc, Hm, fmap_update_first by reflexivity. auto.
  - destruct (resolved_stored _ _ _ _ Hres) as (Hin & Hms & Hcs).
    set (m := sent_message now data body chat s1) in *.
    assert (Hrefs : msg_ref <$> messages (step s e).1 = (msg_ref <$> messages s) ++ [msg_ref m]).
    { destruct Hm as [-> | ->]; rewrite ?fmap_update_first by reflexivity;
        rewrite fmap_app; reflexivity. }
    assert (Hids : chat_id <$> chats (step s e).1 = chat_id <$> chats s1).
    { rewrite Hc. apply fmap_update_first. reflexivity. }
    assert (Hold : forall x, x ∈ chat_id <$> chats s -> x ∈ chat_id <$> chats s1).
    { destruct Hcs as [-> |(-> & _)]; [auto|]. intros x Hx. rewrite fmap_app.
      apply elem_of_app. left. exact Hx. }
    rewrite Hrefs, Hids. split.
    + intros k [Hk| ->%list_elem_of_singleton]%elem_of_app; [auto|].
      cbn. apply list_elem_of_fmap. eauto.
    + intros c mid Hcin Hl. rewrite Hc in Hcin.
      apply elem_of_update_first_hit in Hcin as [Hcin|(c0 & Hc0 & Hp & ->)].
      * apply elem_of_app. left. apply (H2 c mid); [|exact Hl].
        destruct Hcs as [Hcs|(Hcs & Hnone & _)]; rewrite Hcs in Hcin; [exact Hcin|].
        apply elem_of_app in Hcin as [Hcin| ->%list_elem_of_singleton]; [exact Hcin|].
        congruence.
      * cbn in Hl. injection Hl as <-. apply String.eqb_eq in Hp. cbn.
        rewrite Hp. apply elem_of_app. right. left.
Qed.

(** X1 — referential integrity.  Along any sequence of events, every stored
    message keeps pointing at a stored chat, and every chat's [lastMessage]
    at a stored message of that chat. *)
Theorem store_references_stay_valid s es :
  refs_ok s -> refs_ok (steps s es).1.
Proof.
  revert s. induction es as [|e r IH]; intros s Hs; [exact Hs|].
  cbn. pose proof (step_refs_ok s e Hs) as H1. destruct (step s e) as [s1 o1].
  specialize (IH s1 H1). destruct (steps s1 r) as [s2 o2]. exact IH.
Qed.

(** *** Well-formed documents *)

Lemma sent_message_ok now data body chat s1 :
  trim body <> [] -> message_ok (sent_message now data body chat s1).
Proof.
  intros Hb. unfold message_ok, sent_message. cbn [text readBy senderId head].
  rewrite !trim_idempotent. split; [exact Hb|]. split; reflexivity.
Qed.

Lemma mark_read_ok m u : message_ok m -> message_ok (mark_read u m).
Proof.
  unfold message_ok, mark_read. cbn [text readBy senderId].
  intros (Ht & Htr & Hh).
  split; [exact Ht|]. split; [exact Htr|].
  destruct (readBy m); [discriminate|exact Hh].
Qed.

Lemma step_messages_ok s e :
  Forall message_ok (messages s) -> Forall message_ok (messages (step s e).1).
Proof.
  intros Hs.
  destruct (step_store s e) as [(_ & Hm & _)|[(a & b & _ & _ & _ & _ & Hm & _)|
    [(rsid & rdata & He & m & Hf & Hu & _ & Hm & _)|
     (now & data & body & chat & s1 & Hb & _ & _ & _ & Hm & _)]]].
  - rewrite Hm. exact Hs.
  - rewrite Hm. exact Hs.
  - rewrite Hm. apply Forall_update_first; [exact Hs|].
    intros x Hx Hok. rewrite (find_message_same _ _ _ _ Hf Hx) in *.
    apply mark_read_ok; assumption.
  - assert (Hnew : Forall message_ok (messages s ++ [sent_message now data body chat s1])).
    { apply Forall_app. split; [exact Hs|].
      constructor; [apply sent_message_ok, Hb|constructor]. }
    destruct Hm as [-> | ->]; [exact Hnew|].
    apply Forall_update_first; [exact Hnew|]. intros x _ Hok. exact Hok.
Qed.

Lemma step_readers_unique s e :
  plain_receipt e ->
  Forall readers_unique (messages s) ->
  Forall readers_unique (messages (step s e).1).
Proof.
  intros Hplain Hs.
  destruct (step_store s e) as [(_ & Hm & _)|[(a & b & _ & _ & _ & _ & Hm & _)|
    [(rsid & rdata & He & m & Hf & Hu & _ & Hm & _)|
     (now & data & body & chat & s1 & Hb & _ & _ & _ & Hm & _)]]].
  - rewrite Hm. exact Hs.
  - rewrite Hm. exact Hs.
  - subst e. cbn in Hplain. rewrite Hm, Hplain.
    apply Forall_update_first; [exact Hs|].
    intros x Hx Hok. rewrite (find_message_same _ _ _ _ Hf Hx) in *.
    unfold readers_unique, mark_read in *. cbn [readBy].
    apply NoDup_app. split; [exact Hok|]. split.
    + intros y Hy ->%list_elem_of_singleton. auto.
    + apply NoDup_singleton.
  - assert (Hnew : Forall readers_unique
                     (messages s ++ [sent_message now data body chat s1])).
    { apply Forall_app. split; [exact Hs|].
      constructor; [apply NoDup_singleton|constructor]. }
    destruct Hm as [-> | ->]; [exact Hnew|].
    apply Forall_update_first; [exact Hnew|]. intros x _ Hok. exact Hok.
Qed.

(** X2 — stored messages are well formed.  Along any sequence of events
    handled one after the other, every stored message has a text that is
    trimmed and not empty and a [readBy] whose first entry is the sender.
    [readBy] stays without repetition as long as every receipt spells its
    [userId] the way ids print: a receipt in another spelling of a reader
    already recorded is not found by [includes] and is appended again. *)
Theorem stored_messages_stay_well_formed s es :
  Forall message_ok (messages s) ->
  Forall message_ok (messages (steps s es).1) /\
  (Forall plain_receipt es -> Forall readers_unique (messages s) ->
   Forall readers_unique (messages (steps s es).1)).
Proof.
  revert s. induction es as [|e r IH]; intros s Hs; [split; auto|].
  cbn. pose proof (step_messages_ok s e Hs) as H1.
  pose proof (step_readers_unique s e) as H2.
  destruct (step s e) as [s1 o1].
  destruct (IH s1 H1) as [IH1 IH2]. destruct (steps s1 r) as [s2 o2].
  split; [exact IH1|]. intros Hp Hu. apply Forall_cons in Hp as [Hpe Hpr].
  apply IH2; [exact Hpr|]. apply H2; assumption.
Qed.

Lemma step_chats_ok s e :
  Forall chat_ok (chats s) -> Forall chat_ok (chats (step s e).1).
Proof.
  intros Hs.
  destruct (step_store s e) as [(Hc & _)|[(a & b & Ha & Hb & _ & Hc & _)|
    [(rsid & rdata & He & m & _ & _ & _ & _ & Hc & _)|
     (now & data & body & chat & s1 & _ & _ & Hres & Hc & _)]]].
  - rewrite Hc. exact Hs.
  - rewrite Hc. apply Forall_app. split; [exact Hs|].
    constructor; [|constructor]. exists a, b. auto.
  - rewrite Hc. exact Hs.
  - rewrite Hc. apply Forall_update_first.
    + destruct (resolved_stored _ _ _ _ Hres) as (_ & _ & [-> |(-> & _ & Hp & Ha & Hb)]);
        [exact Hs|].
      apply Forall_app. split; [exact Hs|]. constructor; [|constructor].
      eexists _, _. eauto.
    + intros x _ Hok. exact Hok.
Qed.

(** X3 — stored chats are pairs.  Along any sequence of events, every
    stored chat has exactly two participants, each one the id of a string
    the ObjectId constructor accepts; no handler adds, removes or replaces a
    participant. *)
Theorem stored_chats_stay_pairs s es :
  Forall chat_ok (chats s) ->
  Forall chat_ok (chats (steps s es).1) /\
  extends chat_le (chats s) (chats (steps s es).1).
Proof.
  intros Hs. split; [|apply steps_chats_extend].
  revert s Hs. induction es as [|e r IH]; intros s Hs; [exact Hs|].
  cbn. pose proof (step_chats_ok s e Hs) as H1. destruct (step s e) as [s1 o1].
  specialize (IH s1 H1). destruct (steps s1 r) as [s2 o2]. exact IH.
Qed.

(** *** Read receipts, continued *)

(** X4 — the sender's own receipt.  In a store of well-formed messages, a
    [mark_as_read] in the name of a message's sender changes nothing and
    emits nothing: the sender is in [readBy] from the start. *)
Theorem sender_receipt_is_ignored sid mid m s :
  Forall message_ok (messages s) ->
  find_message (oid_str mid) (messages s) = Some m ->
  run (mark_as_read sid (mkRead mid (senderId m))) s = (s, []).
Proof.
  intros Hok Hm. rewrite mark_as_read_eq. cbn [rd_messageId rd_userId]. rewrite Hm.
  assert (Hin : senderId m ∈ readBy m).
  { rewrite Forall_forall in Hok. destruct (Hok m) as (_ & _ & Hh).
    - apply (find_stored _ _ _ Hm).
    - destruct (readBy m) as [|x r]; [discriminate|]. injection Hh as ->. left. }
  unfold includes. rewrite bool_decide_eq_true_2 by exact Hin.
  destruct (oid_ok mid); reflexivity.
Qed.

Lemma lookup_update_first_miss {A} (p : A -> bool) f (l : list A) i x :
  l !! i = Some x -> p x = false -> update_first p f l !! i = Some x.
Proof.
  revert i. induction l as [|a r IH]; intros i; [discriminate|].
  destruct i as [|i]; cbn.
  - intros [= ->] E. rewrite E. reflexivity.
  - intros Hi E. destruct (p a); [exact Hi|]. cbn. apply IH; assumption.
Qed.

Lemma length_update_first {A} (p : A -> bool) f (l : list A) :
  length (update_first p f l) = length l.
Proof.
  induction l as [|a r IH]; [reflexivity|]. cbn. destruct (p a); cbn; auto.
Qed.

(** X5 — what a read receipt cannot do.  Whatever its payload, a
    [mark_as_read] leaves the chats, the presence map and the sockets as
    they are, neither adds nor removes a message, leaves every message with
    another [_id] untouched, and emits at most one event, a [message_read]
    to a room: a malformed id or an unknown message is swallowed without any
    error event. *)
Theorem mark_as_read_is_confined sid data s :
  let '(s', out) := run (mark_as_read sid data) s in
  chats s' = chats s /\ onlineUsers s' = onlineUsers s /\ sockets s' = sockets s /\
  nextOid s' = nextOid s /\
  length (messages s') = length (messages s) /\
  (forall i m, messages s !! i = Some m ->
               msg_id m <> oid_str (rd_messageId data) ->
               messages s' !! i = Some m) /\
  (out = [] \/ exists room, out = [(ToRoom room,
              message_read (rd_messageId data) (rd_userId data))]).
Proof.
  rewrite mark_as_read_eq.
  destruct (oid_ok (rd_messageId data)); [|repeat split; auto].
  destruct (find_message _ _) as [m|] eqn:Hm; [|repeat split; auto].
  destruct (includes _ _); [repeat split; auto|].
  destruct (oid_ok (rd_userId data)); [|repeat split; auto].
  cbn [chats onlineUsers sockets nextOid messages set_messages].
  repeat split; try reflexivity.
  - apply length_update_first.
  - intros i x Hi Hne. apply lookup_update_first_miss; [exact Hi|].
    apply String.eqb_neq. rewrite (find_message_id _ _ _ Hm). exact Hne.
  - right. eauto.
Qed.

(** X6 — two readers.  Receipts of two different well-formed readers, one
    after the other, are recorded in that order at the end of [readBy], and
    each one is broadcast to the room of the message's chat.  The second
    receipt must not spell the id the first one stored. *)
Theorem two_readers_in_order sid1 sid2 mid u v m s :
  oid_ok mid = true -> oid_ok u = true -> oid_ok v = true ->
  find_message (oid_str mid) (messages s) = Some m ->
  u ∉ readBy m -> v ∉ readBy m -> v <> oid_str u ->
  let '(s1, out1) := run (mark_as_read sid1 (mkRead mid u)) s in
  let '(s2, out2) := run (mark_as_read sid2 (mkRead mid v)) s1 in
  (exists m2, find_message (oid_str mid) (messages s2) = Some m2 /\
     readBy m2 = readBy m ++ [oid_str u; oid_str v] /\ status m2 = read) /\
  out1 = [(ToRoom (chatId m), message_read mid u)] /\
  out2 = [(ToRoom (chatId m), message_read mid v)].
Proof.
  intros Hmid Hu Hv Hm Hnu Hnv Huv.
  rewrite mark_as_read_eq. cbn [rd_messageId rd_userId]. rewrite Hmid, Hm, Hu.
  unfold includes. rewrite bool_decide_eq_false_2 by exact Hnu.
  set (f1 := fun d => mkMessage (msg_id d) (chatId d) (senderId d) (text d) read
                        (readBy d ++ [oid_str u]) (createdAt d)).
  assert (H1 : find_message (oid_str mid)
             (update_first (fun d => String.eqb (msg_id d) (msg_id m)) f1 (messages s))
           = Some (f1 m))
    by (apply find_message_update; [reflexivity|exact Hm]).
  rewrite mark_as_read_eq. cbn [rd_messageId rd_userId messages set_messages].
  rewrite Hmid, H1, Hv.
  unfold includes. rewrite bool_decide_eq_false_2.
  2:{ cbn. intros [H|H%list_elem_of_singleton]%elem_of_app; [auto|congruence]. }
  cbn [messages set_messages].
  split; [|split; reflexivity].
  eexists. split.
  - apply find_message_update; [reflexivity|exact H1].
  - cbn. rewrite <- app_assoc. split; reflexivity.
Qed.

Lemma resolved_nextOid data s c s1 :
  resolved data s (Some c) s1 -> (nextOid s <= nextOid s1)%nat.
Proof.
  intros [[-> _]|(_ & -> & _)]; cbn; lia.
Qed.

Lemma resolved_messages data s c s1 :
  resolved data s (Some c) s1 -> messages s1 = messages s.
Proof.
  intros [[-> _]|(_ & -> & _)]; reflexivity.
Qed.

Lemma step_read_iff_acknowledged s e :
  driver_ok -> ids_known s ->
  Forall read_iff_acknowledged (messages s) ->
  Forall read_iff_acknowledged (messages (step s e).1).
Proof.
  intros Hinj Hk Hs.
  destruct (step_store s e) as [(_ & Hm & _)|[(a & b & _ & _ & _ & _ & Hm & _)|
    [(rsid & rdata & He & m & Hf & Hu & _ & Hm & _)|
     (now & data & body & chat & s1 & Hb & _ & Hres & _ & Hm & _)]]].
  - rewrite Hm. exact Hs.
  - rewrite Hm. exact Hs.
  - rewrite Hm. apply Forall_update_first; [exact Hs|].
    intros x Hx [Hone _]. unfold read_iff_acknowledged, mark_read. cbn.
    rewrite length_app. cbn.
    split; [lia|]. split; [intros _; lia|reflexivity].
  - set (m := sent_message now data body chat s1) in *.
    assert (Hnew : Forall read_iff_acknowledged (messages s ++ [m])).
    { apply Forall_app. split; [exact Hs|]. constructor; [|constructor].
      unfold read_iff_acknowledged. cbn. split; [lia|]. split; [discriminate|lia]. }
    destruct Hm as [-> | ->]; [exact Hnew|].
    apply Forall_update_first; [exact Hnew|]. intros x Hx _.
    rewrite find_app in Hx.
    pose proof (ids_known_fresh s (nextOid s1) Hinj Hk (resolved_nextOid _ _ _ _ Hres))
      as Hfresh.
    unfold find_message in Hfresh. change (msg_id m) with (new_oid (nextOid s1)) in Hx.
    rewrite Hfresh in Hx. cbn in Hx. rewrite String.eqb_refl in Hx. injection Hx as <-.
    unfold read_iff_acknowledged. cbn. split; [lia|]. split; [discriminate|lia].
Qed.

(** X7 — status and receipts agree when handlers do not overlap.  With a
    driver that never repeats an [_id], along any sequence of events
    handled one after the other, no handler starting while another is
    suspended, every stored message keeps a non-empty [readBy], and its
    status is [read] exactly when [readBy] holds an entry after the first.
    In such a run the [delivered] update of a [send_message] is applied
    before any receipt for its message is handled, and [read] is never set
    without a receipt. *)
Theorem read_status_matches_receipts s es :
  driver_ok -> ids_known s ->
  Forall read_iff_acknowledged (messages s) ->
  Forall read_iff_acknowledged (messages (steps s es).1).
Proof.
  intros Hinj. revert s. induction es as [|e r IH]; intros s Hk Hs; [exact Hs|].
  cbn. pose proof (step_read_iff_acknowledged s e Hinj Hk Hs) as H1.
  destruct (step_messages s e Hinj Hk) as [_ H2].
  destruct (step s e) as [s1 o1].
  specialize (IH s1 H2 H1). destruct (steps s1 r) as [s2 o2]. exact IH.
Qed.

(** *** Rooms *)

Lemma in_room_recipients s room sid :
  in_room s room sid <-> sid ∈ recipients s (ToRoom room).
Proof.
  unfold in_room, recipients. rewrite elem_of_dom. unfold is_Some.
  setoid_rewrite map_lookup_filter_Some. cbn. naive_solver.
Qed.

Lemma rooms_grow_refl m : rooms_grow m m.
Proof. intros sid sk H. exists sk. auto. Qed.

Lemma rooms_grow_trans m1 m2 m3 :
  rooms_grow m1 m2 -> rooms_grow m2 m3 -> rooms_grow m1 m3.
Proof.
  intros H12 H23 sid sk H. destruct (H12 _ _ H) as (sk2 & H2 & Hu2 & Hr2).
  destruct (H23 _ _ H2) as (sk3 & H3 & Hu3 & Hr3).
  exists sk3. split; [exact H3|]. split; [congruence|set_solver].
Qed.

Lemma rooms_grow_joined room k m : rooms_grow m (alter (joined room) k m).
Proof.
  intros sid sk H. destruct (decide (k = sid)) as [->|Hne].
  - exists (joined room sk). rewrite lookup_alter_eq, H. cbn.
    split; [reflexivity|]. split; [reflexivity|set_solver].
  - exists sk. rewrite lookup_alter_ne by exact Hne. auto.
Qed.

Lemma in_room_joined room sid sk s :
  sockets s !! sid = Some sk ->
  in_room (set_sockets (alter (joined room) sid) s) room sid.
Proof.
  intros H. exists (joined room sk). cbn. rewrite lookup_alter_eq, H. cbn.
  split; [reflexivity|set_solver].
Qed.

Lemma in_room_grow s s' room sid :
  rooms_grow (sockets s) (sockets s') -> in_room s room sid -> in_room s' room sid.
Proof.
  intros Hg (sk & H & Hr). destruct (Hg _ _ H) as (sk' & H' & _ & Hsub).
  exists sk'. split; [exact H'|set_solver].
Qed.

Lemma receiverSocket_joined room sid s receiver :
  receiverSocket (set_sockets (alter (joined room) sid) s) receiver =
  receiverSocket s receiver.
Proof.
  unfold receiverSocket, receiverSocketId. cbn.
  destruct (onlineUsers s !! receiver) as [r|]; [|reflexivity].
  destruct (truthy r); [|reflexivity].
  rewrite (bool_decide_ext _ _ (lookup_alter_is_Some (joined room) (sockets s) sid r)).
  reflexivity.
Qed.

Lemma receiverSocket_connected s receiver r :
  receiverSocket s receiver = Some r ->
  receiverSocketId s receiver = Some r /\ is_Some (sockets s !! r).
Proof.
  unfold receiverSocket. destruct (receiverSocketId s receiver) as [x|]; [|discriminate].
  destruct (bool_decide _) eqn:E; [|discriminate]. intros [= ->].
  apply bool_decide_eq_true in E. auto.
Qed.

Lemma with_joins_grow sid receiver chat s :
  rooms_grow (sockets s) (sockets (with_joins sid receiver chat s)).
Proof.
  unfold with_joins. rewrite receiverSocket_joined.
  destruct (receiverSocket s receiver) as [r|]; cbn.
  - eapply rooms_grow_trans; apply rooms_grow_joined.
  - apply rooms_grow_joined.
Qed.

Lemma with_joins_sender sid receiver chat sk s :
  sockets s !! sid = Some sk ->
  in_room (with_joins sid receiver chat s) (chat_id chat) sid.
Proof.
  intros H. unfold with_joins.
  pose proof (in_room_joined (chat_id chat) sid sk s H) as Hin.
  destruct (receiverSocket _ _) as [r|]; [|exact Hin].
  eapply in_room_grow; [|exact Hin]. cbn. apply rooms_grow_joined.
Qed.

Lemma with_joins_receiver sid receiver chat s r :
  receiverSocket s receiver = Some r ->
  in_room (with_joins sid receiver chat s) (chat_id chat) r.
Proof.
  intros Hr. unfold with_joins. rewrite receiverSocket_joined, Hr.
  destruct (receiverSocket_connected _ _ _ Hr) as [_ [sk Hsk]].
  apply (in_room_joined (chat_id chat) r (if decide (sid = r) then joined (chat_id chat) sk else sk)).
  cbn. rewrite lookup_alter. destruct (decide (sid = r)) as [->|_]; rewrite Hsk; reflexivity.
Qed.

Lemma send_outcome_sockets now sid data body chat s1 :
  sockets (send_outcome now sid data body chat s1).1 =
    sockets (with_joins sid (sd_receiverId data) chat s1) /\
  onlineUsers (send_outcome now sid data body chat s1).1 = onlineUsers s1.
Proof.
  destruct (with_joins_db sid (sd_receiverId data) chat s1) as (_ & _ & _ & _ & Ho).
  unfold send_outcome. destruct (receiverSocketId _ _); cbn; auto.
Qed.

Lemma resolved_sockets data s r s1 :
  resolved data s r s1 -> sockets s1 = sockets s /\ onlineUsers s1 = onlineUsers s /\
                          users s1 = users s.
Proof.
  destruct r as [c|]; cbn; [|intros ->; auto].
  intros [[-> _]|(_ & -> & _)]; auto.
Qed.

(** The sockets after one event. *)
Lemma step_sockets s e :
  (forall sid, e <> Disconnect sid) ->
  rooms_grow (sockets s) (sockets (step s e).1) \/
  exists sid uid, e = UserOnline sid uid /\
    sockets (step s e).1 = alter (fun sk => mkSocket (Some uid) (rooms sk)) sid (sockets s).
Proof.
  intros Hnd. rewrite step_eq.
  destruct (sockets s !! event_socket e) as [sk|] eqn:Hsk, e; cbn [fst];
    try (left; apply rooms_grow_refl);
    try (exfalso; eapply Hnd; reflexivity).
  - right. rewrite user_online_run. eauto.
  - left. rewrite join_chat_run.
    destruct (resolve_or_create _ _ s) as [[[c|] s1] o1] eqn:Hr.
    + rewrite resolve_or_create_eq in Hr.
      destruct (oid_ok _ && oid_ok _); [|discriminate].
      destruct (find _ _); injection Hr as <- <- <-; cbn [fst];
        [apply with_joins_grow|].
      exact (with_joins_grow sid _ _ (with_chat _ s)).
    + rewrite resolve_or_create_eq in Hr.
      destruct (oid_ok _ && oid_ok _); [destruct (find _ _); discriminate|].
      injection Hr as <- <-. apply rooms_grow_refl.
  - left. rewrite accept_chat_run. cbn. apply rooms_grow_joined.
  - left. rewrite send_message_run.
    destruct (sd_text data) as [|body|]; try apply rooms_grow_refl.
    destruct (trim body); [apply rooms_grow_refl|].
    destruct (resolve_chat data s) as [[r s1] o1] eqn:Hr.
    destruct (resolve_chat_cases _ _ _ _ _ Hr) as [_ Hcase].
    destruct (resolved_sockets _ _ _ _ Hcase) as (Hs & _).
    destruct r as [chat|]; [|cbn; rewrite Hs; apply rooms_grow_refl].
    destruct (oid_ok (sd_senderId data)); cbn [fst].
    + destruct (send_outcome_sockets now sid data body chat s1) as [-> _].
      rewrite <- Hs. apply with_joins_grow.
    + rewrite <- Hs. apply with_joins_grow.
  - left. rewrite mark_as_read_eq.
    destruct (oid_ok (rd_messageId data)); [|apply rooms_grow_refl].
    destruct (find_message _ _); [|apply rooms_grow_refl].
    destruct (includes _ _); [apply rooms_grow_refl|].
    destruct (oid_ok (rd_userId data)); apply rooms_grow_refl.
  - left. cbn. intros k x Hk. exists x. split; [|auto].
    rewrite lookup_insert_ne; [exact Hk|]. intros ->. cbn in Hsk. congruence.
Qed.

Lemma step_socket_rooms s e sid sk :
  sockets s !! sid = Some sk -> e <> Disconnect sid ->
  exists sk', sockets (step s e).1 !! sid = Some sk' /\ rooms sk ⊆ rooms sk'.
Proof.
  intros Hsk Hne.
  assert (Hcases : (exists sid', e = Disconnect sid') \/ forall sid', e <> Disconnect sid')
    by (destruct e; eauto; right; discriminate).
  destruct Hcases as [[sid' ->]|Hnd].
  - assert (Hd : sid' <> sid) by congruence.
    rewrite step_eq. cbn [event_socket].
    destruct (sockets s !! sid') as [sk0|]; [|exists sk; auto].
    rewrite disconnect_run. exists sk.
    destruct (userId sk0) as [uid|]; [destruct (truthy uid)|]; cbn;
      rewrite lookup_delete_ne by exact Hd; auto.
  - destruct (step_sockets s e) as [Hg|(sid' & uid & -> & ->)].
    + exact Hnd.
    + destruct (Hg _ _ Hsk) as (sk' & H & _ & Hr). eauto.
    + rewrite lookup_alter. destruct (decide (sid' = sid)) as [->|_].
      * rewrite Hsk. cbn. eauto.
      * eauto.
Qed.

(** X8 — subscriptions last until disconnect.  No handler takes a socket out
    of a room: a socket that receives the broadcasts of a room keeps
    receiving them, whatever events are handled, until its own
    [disconnect]. *)
Theorem subscriptions_last_until_disconnect s es room sid :
  sid ∈ recipients s (ToRoom room) ->
  Disconnect sid ∉ es ->
  sid ∈ recipients (steps s es).1 (ToRoom room).
Proof.
  rewrite <- !in_room_recipients.
  revert s. induction es as [|e r IH]; intros s Hin Hnd; [exact Hin|].
  cbn. destruct Hin as (sk & Hsk & Hroom).
  destruct (step_socket_rooms s e sid sk Hsk) as (sk' & Hsk' & Hsub).
  { intros ->. apply Hnd. left. }
  destruct (step s e) as [s1 o1]. cbn in Hsk'.
  assert (H1 : in_room s1 room sid) by (exists sk'; split; [exact Hsk'|set_solver]).
  specialize (IH s1 H1). destruct (steps s1 r) as [s2 o2]. cbn in *.
  apply IH. intros H. apply Hnd. right. exact H.
Qed.


Lemma resolve_or_create_some a b s chat s1 o :
  resolve_or_create a b s = (Some chat, s1, o) ->
  sockets s1 = sockets s /\ onlineUsers s1 = onlineUsers s /\
  messages s1 = messages s /\ users s1 = users s /\
  chat ∈ chats s1 /\
  oid_str a ∈ participants chat /\ oid_str b ∈ participants chat /\
  (chats s1 = chats s \/ chats s1 = chats s ++ [chat]).
Proof.
  rewrite resolve_or_create_eq. destruct (oid_ok a && oid_ok b); [|discriminate].
  destruct (find _ _) as [c|] eqn:Hf; intros [= <- <- <-].
  - apply find_some in Hf. destruct Hf as [Hin Hall].
    unfold has_all in Hall. apply andb_prop in Hall. destruct Hall as [Ha Hb].
    apply bool_decide_eq_true in Ha, Hb. apply list_elem_of_In in Hin.
    repeat split; auto.
  - cbn. repeat split; auto; set_solver.
Qed.

Lemma receiverSocket_frame s s' receiver :
  sockets s' = sockets s -> onlineUsers s' = onlineUsers s ->
  receiverSocket s' receiver = receiverSocket s receiver.
Proof.
  intros Hs Ho. unfold receiverSocket, receiverSocketId. rewrite Hs, Ho. reflexivity.
Qed.

(** X10 — joining subscribes both ends.  A [join_chat] with two well-formed
    ids, from a connected socket, puts that socket into the room of a chat
    that holds both ids, and tells it the chat id and the history; when the
    socket registered for the receiver is connected it is put into the room
    too and is sent the same two events.  No message is stored or changed. *)
Theorem join_chat_subscribes_both_ends sid sk data s :
  sockets s !! sid = Some sk ->
  oid_ok (jd_senderId data) = true -> oid_ok (jd_receiverId data) = true ->
  let '(s', out) := run (join_chat sid data) s in
  exists c, c ∈ chats s' /\
    oid_str (jd_senderId data) ∈ participants c /\
    oid_str (jd_receiverId data) ∈ participants c /\
    messages s' = messages s /\
    sid ∈ recipients s' (ToRoom (chat_id c)) /\
    let mine := [(ToSocket sid, chat_joined (chat_id c));
                 (ToSocket sid, chat_history (history s (chat_id c)))] in
    match receiverSocket s (jd_receiverId data) with
    | Some r =>
        r ∈ recipients s' (ToRoom (chat_id c)) /\
        out = mine ++ [(ToSocket r, chat_joined (chat_id c));
                       (ToSocket r, chat_history (history s (chat_id c)))]
    | None => out = mine
    end.
Proof.
  intros Hsk Ha Hb. rewrite join_chat_run.
  destruct (resolve_or_create _ _ s) as [[[c|] s1] o1] eqn:Hr.
  2:{ rewrite resolve_or_create_eq, Ha, Hb in Hr. cbn in Hr.
      destruct (find _ _); discriminate. }
  destruct (resolve_or_create_some _ _ _ _ _ _ Hr)
    as (Hso & Hon & Hms & Hus & Hin & Hpa & Hpb & _).
  destruct (with_joins_db sid (jd_receiverId data) c s1) as (Hc & Hm & _).
  cbn zeta. exists c. rewrite Hc, Hm.
  split; [exact Hin|]. split; [exact Hpa|]. split; [exact Hpb|]. split; [exact Hms|].
  split.
  { apply in_room_recipients. apply (with_joins_sender _ _ _ sk). congruence. }
  assert (Hh : history s1 (chat_id c) = history s (chat_id c)).
  { unfold history, conversation. rewrite Hms, Hus. reflexivity. }
  rewrite Hh, receiverSocket_joined, (receiverSocket_frame s s1 _ Hso Hon).
  destruct (receiverSocket s (jd_receiverId data)) as [r|] eqn:Hrs; [|reflexivity].
  split; [|reflexivity].
  apply in_room_recipients, with_joins_receiver.
  rewrite (receiverSocket_frame s s1 _ Hso Hon). exact Hrs.
Qed.

(** X11 — malformed ids in [join_chat].  When either id is not a well-formed
    ObjectId, [join_chat] changes nothing and sends the caller one [error]
    event; the revision kept in script.js changes nothing and sends
    nothing. *)
Theorem join_chat_rejects_malformed_ids sid data s :
  oid_ok (jd_senderId data) && oid_ok (jd_receiverId data) = false ->
  run (join_chat sid data) s = (s, [join_failed sid]) /\
  run (script_join_chat sid data) s = (s, []).
Proof.
  intros Hbad. split.
  - rewrite join_chat_run, resolve_or_create_eq, Hbad. reflexivity.
  - unfold run, script_join_chat. unfold_M.
    rewrite resolve_or_create_eq, Hbad. reflexivity.
Qed.

(** X12 — [accept_chat] checks nothing.  From a connected socket,
    [accept_chat] puts the socket into the room named by [chatId] and, when
    [chatId] is a well-formed id, sends it the history stored under that id.
    The [userId] of the payload and the chats collection play no part: any
    socket obtains the history of any chat whose id it names.  A malformed
    [chatId] still joins the room, and no error event is sent. *)
Theorem accept_chat_checks_nothing sid sk cid u s :
  sockets s !! sid = Some sk ->
  let '(s', out) := run (accept_chat sid (mkAccept cid u)) s in
  sid ∈ recipients s' (ToRoom cid) /\
  chats s' = chats s /\ messages s' = messages s /\
  onlineUsers s' = onlineUsers s /\
  out = (if oid_ok cid
         then [(ToSocket sid, chat_history (history s (oid_str cid)))] else []) /\
  forall u' cs,
    run (accept_chat sid (mkAccept cid u')) (set_chats (fun _ => cs) s) =
      (set_chats (fun _ => cs) s', out).
Proof.
  intros Hsk. rewrite accept_chat_run. cbn [ad_chatId].
  split; [apply in_room_recipients, (in_room_joined _ _ sk), Hsk|].
  repeat split. intros u' cs. rewrite accept_chat_run. reflexivity.
Qed.

(** *** Presence *)

Lemma step_connected s e sk :
  sockets s !! event_socket e = Some sk ->
  step s e =
    match e with
    | Connection _ => (s, [])
    | UserOnline sid uid => run (user_online sid uid) s
    | JoinChat sid data => run (join_chat sid data) s
    | AcceptChat sid data => run (accept_chat sid data) s
    | SendMessage now sid data => run (send_message now sid data) s
    | Typing sid data => run (typing sid data) s
    | StopTyping sid data => run (stop_typing sid data) s
    | MarkAsRead sid data => run (mark_as_read sid data) s
    | Disconnect sid => run (disconnect sk) (set_sockets (delete sid) s)
    end.
Proof.
  intros H. rewrite step_eq, H. destruct e; reflexivity.
Qed.

Lemma lookup_alter_connected (f : Socket -> Socket) sid sk
    (m : gmap SocketId Socket) :
  m !! sid = Some sk -> alter f sid m !! sid = Some (f sk).
Proof. intros H. rewrite lookup_alter_eq, H. reflexivity. Qed.

(** X13 — announce, look up, leave.  A connected socket announces an
    identity [uid] that is not empty and not registered: from then on the
    registry gives that socket for [uid]; when the socket disconnects the
    registry is what it was before.  [online] and [offline]
    go to every connection, and the store is not touched. *)
Theorem presence_round_trip sid sk uid s :
  sockets s !! sid = Some sk ->
  onlineUsers s !! uid = None ->
  truthy uid = true -> truthy sid = true ->
  let '(s1, o1) := step s (UserOnline sid uid) in
  let '(s2, o2) := step s1 (Disconnect sid) in
  receiverSocketId s1 uid = Some sid /\
  (forall v, v <> uid -> receiverSocketId s1 v = receiverSocketId s v) /\
  onlineUsers s2 = onlineUsers s /\
  sockets s2 = delete sid (sockets s) /\
  chats s2 = chats s /\ messages s2 = messages s /\
  o1 = [(ToAll, user_status uid true)] /\
  o2 = [(ToAll, user_status uid false)].
Proof.
  intros Hsk Hnone Hu Hs.
  rewrite (step_connected s _ sk) by exact Hsk. rewrite user_online_run.
  erewrite step_connected.
  2:{ cbn [sockets set_sockets set_onlineUsers event_socket].
      apply lookup_alter_connected, Hsk. }
  rewrite disconnect_run. cbn [userId]. rewrite Hu.
  unfold receiverSocketId. cbn.
  rewrite lookup_insert_eq, Hs, delete_alter_eq.
  split; [reflexivity|]. split.
  { intros v Hv. rewrite lookup_insert_ne by congruence. reflexivity. }
  rewrite delete_insert_id by exact Hnone. repeat split.
Qed.


(** X15 — the empty identity.  An announce with the empty string as identity
    is registered and broadcast like any other, but the disconnect handler
    tests [socket.userId] for truthiness: the entry is never removed and no
    [offline] is broadcast. *)
Theorem empty_identity_is_never_cleared sid sk s :
  sockets s !! sid = Some sk ->
  let '(s', out) := steps s [UserOnline sid ""; Disconnect sid] in
  onlineUsers s' !! "" = Some sid /\
  sockets s' !! sid = None /\
  out = [(ToAll, user_status "" true)].
Proof.
  intros Hsk. cbn [steps].
  rewrite (step_connected s _ sk) by exact Hsk. rewrite user_online_run.
  erewrite step_connected.
  2:{ cbn [sockets set_sockets set_onlineUsers event_socket].
      apply lookup_alter_connected, Hsk. }
  rewrite disconnect_run. cbn.
  rewrite lookup_insert_eq, lookup_delete_eq. repeat split.
Qed.

(** *** Sending *)


(** X16 — the three outcomes of [send_message].  A [send_message] is either
    ignored (nothing changes, nothing is sent); or it fails: the sender gets
    exactly one [message_error], nobody gets anything else, and chats,
    messages and registry are what they were (sockets may have joined a
    room); or it succeeds: exactly one message is added, [receive_message]
    is sent and no [message_error] is. *)
Theorem send_message_outcomes now sid data s :
  let '(s', out) := run (send_message now sid data) s in
  (s' = s /\ out = []) \/
  (out = [send_failed sid] /\ chats s' = chats s /\ messages s' = messages s /\
   nextOid s' = nextOid s /\ onlineUsers s' = onlineUsers s /\
   rooms_grow (sockets s) (sockets s')) \/
  (send_ok now sid data s /\
   length (messages s') = S (length (messages s)) /\
   forallb (fun e => negb (is_message_error e)) out = true).
Proof.
  pose proof (send_ok_iff now sid data s) as Hiff.
  rewrite send_message_run.
  destruct (sd_text data) as [|body|] eqn:Ht; [left; auto| |].
  2:{ right. left. repeat split. apply rooms_grow_refl. }
  destruct (trim body) as [|u r] eqn:Eb; [left; auto|].
  destruct (resolve_chat data s) as [[[chat|] s1] o1] eqn:Hr;
    destruct (resolve_chat_cases _ _ _ _ _ Hr) as [_ Hcase].
  2:{ cbn in Hcase. subst s1. right. left. repeat split. apply rooms_grow_refl. }
  destruct (resolved_sockets _ _ _ _ Hcase) as (Hso & Hon & _).
  destruct (oid_ok (sd_senderId data)) eqn:Hs.
  - assert (Hok : send_ok now sid data s).
    { apply Hiff. exists body, chat, s1, o1. rewrite Eb. repeat split; auto. }
    pose proof (send_outcome_stored now sid data body chat s1) as Hst.
    destruct (send_outcome now sid data body chat s1) as [s' out].
    destruct Hst as (m & _ & Hlen & _ & _ & _ & _ & _ & Herr).
    right. right. rewrite <- (resolved_messages _ _ _ _ Hcase). auto.
  - right. left. unfold resolved in Hcase.
    destruct Hcase as [[-> _]|(_ & _ & Ha & _)]; [|congruence].
    destruct (with_joins_db sid (sd_receiverId data) chat s) as (Hc & Hm & Hn & _ & Ho).
    repeat split; auto. apply with_joins_grow.
Qed.

(** X17 — a failed send may still join.  With the id of a stored chat and a
    malformed [senderId], [send_message] fails after the room was joined:
    the sender gets [message_error] and nothing is stored, yet its socket is
    now in the room of that chat. *)
Theorem failed_send_still_joins now sid sk data body cid c s :
  sockets s !! sid = Some sk ->
  sd_text data = TextStr body -> trim body <> [] ->
  sd_chatId data = Some cid -> truthy cid = true -> oid_ok cid = true ->
  find (fun c => String.eqb (chat_id c) (oid_str cid)) (chats s) = Some c ->
  oid_ok (sd_senderId data) = false ->
  let '(s', out) := run (send_message now sid data) s in
  out = [send_failed sid] /\
  chats s' = chats s /\ messages s' = messages s /\
  sid ∈ recipients s' (ToRoom (oid_str cid)).
Proof.
  intros Hsk Ht Hb Hcid Htr Hok Hf Hs.
  rewrite send_message_run, Ht. destruct (trim body) eqn:Eb; [congruence|].
  rewrite (resolve_chat_by_id _ _ _ Hcid Htr), Hok, Hf, Hs.
  destruct (with_joins_db sid (sd_receiverId data) c s) as (Hc & Hm & _).
  split; [reflexivity|]. split; [exact Hc|]. split; [exact Hm|].
  apply in_room_recipients.
  apply find_some in Hf. destruct Hf as [_ Hid]. apply String.eqb_eq in Hid.
  rewrite <- Hid. apply (with_joins_sender _ _ _ sk), Hsk.
Qed.





(** *** Fresh chats *)



Lemma sort_by_createdAt_nil : sort_by_createdAt [] = [].
Proof. reflexivity. Qed.


(** *** The revision kept in script.js *)

Lemma script_send_message_body_run now sid data body s chat s1 o1 :
  resolve_chat data s = (Some chat, s1, o1) ->
  oid_ok (sd_senderId data) = true ->
  script_send_message_body now sid data body s =
    (Some tt, (script_send_outcome now sid data body chat s1).1,
     o1 ++ (script_send_outcome now sid data body chat s1).2).
Proof.
  intros Hr Hs.
  unfold script_send_message_body, script_send_outcome, sent_message, mark_delivered.
  unfold_M. rewrite Hr. unfold_db. unfold_M. cbn. rewrite Hs. cbn.
  unfold receiverSocketId. cbn.
  destruct (onlineUsers s1 !! sd_receiverId data) as [r|]; [|reflexivity].
  destruct (truthy r); reflexivity.
Qed.

Lemma script_send_message_body_bad_sender now sid data body s chat s1 o1 :
  resolve_chat data s = (Some chat, s1, o1) ->
  oid_ok (sd_senderId data) = false ->
  script_send_message_body now sid data body s =
    (None, set_sockets (alter (joined (chat_id chat)) sid) s1, o1).
Proof.
  intros Hr Hs. unfold script_send_message_body.
  unfold_M. rewrite Hr. unfold_db. unfold_M. cbn. rewrite Hs. cbn.
  rewrite app_nil_r. reflexivity.
Qed.

Lemma script_send_message_run now sid data s :
  run (script_send_message now sid data) s =
    match sd_text data with
    | TextMissing => (s, [])
    | TextOther => (s, [send_failed sid])
    | TextStr body =>
        match trim body with
        | [] => (s, [])
        | _ :: _ =>
            match resolve_chat data s with
            | (Some chat, s1, _) =>
                if oid_ok (sd_senderId data)
                then script_send_outcome now sid data body chat s1
                else (set_sockets (alter (joined (chat_id chat)) sid) s1,
                      [send_failed sid])
            | (None, s1, _) => (s1, [send_failed sid])
            end
        end
    end.
Proof.
  unfold run, script_send_message, try_catch.
  destruct (sd_text data) as [|body|]; try reflexivity.
  destruct (trim body) as [|c r] eqn:Hb; [reflexivity|].
  destruct (resolve_chat data s) as [[[chat|] s1] o1] eqn:Hr.
  - destruct (resolve_chat_cases _ _ _ _ _ Hr) as [-> _].
    destruct (oid_ok (sd_senderId data)) eqn:Hs.
    + rewrite (script_send_message_body_run _ _ _ _ _ _ _ _ Hr Hs).
      destruct (script_send_outcome _ _ _ _ _ _); reflexivity.
    + rewrite (script_send_message_body_bad_sender _ _ _ _ _ _ _ _ Hr Hs). reflexivity.
  - destruct (resolve_chat_cases _ _ _ _ _ Hr) as [-> _].
    unfold script_send_message_body. unfold_M. rewrite Hr. reflexivity.
Qed.

Lemma script_join_chat_run sid data s :
  run (script_join_chat sid data) s =
    match resolve_or_create (jd_senderId data) (jd_receiverId data) s with
    | (Some chat, s1, _) =>
        (set_sockets (alter (joined (chat_id chat)) sid) s1,
         [(ToSocket sid, chat_history (history s1 (chat_id chat)))])
    | (None, s1, _) => (s1, [])
    end.
Proof.
  unfold run, script_join_chat. unfold_M.
  destruct (resolve_or_create _ _ s) as [[[c|] s1] o1] eqn:Hr.
  - rewrite resolve_or_create_eq in Hr.
    destruct (oid_ok _ && oid_ok _); [|discriminate].
    destruct (find _ _); injection Hr as <- <- <-; unfold_db; unfold_M; reflexivity.
  - rewrite resolve_or_create_eq in Hr.
    destruct (oid_ok _ && oid_ok _); [destruct (find _ _); discriminate|].
    injection Hr as <- <-. reflexivity.
Qed.

(** X22 — the two [send_message] revisions store the same.  For every payload
    and state, the [send_message] of script.js and the latest one leave the
    same chats, messages and registry and emit the same events in the same
    order; they can differ only in the rooms joined (the latest joins at
    least what the older one joins) and in the address of an event. *)
Theorem send_message_revisions_agree now sid data s :
  let '(s1, o1) := run (script_send_message now sid data) s in
  let '(s2, o2) := run (send_message now sid data) s in
  store s1 = store s2 /\ onlineUsers s1 = onlineUsers s2 /\
  o1.*2 = o2.*2 /\
  rooms_grow (sockets s1) (sockets s2).
Proof.
  rewrite script_send_message_run, send_message_run.
  destruct (sd_text data) as [|body|]; try (repeat split; apply rooms_grow_refl).
  destruct (trim body); [repeat split; apply rooms_grow_refl|].
  destruct (resolve_chat data s) as [[[chat|] s1] o1];
    [|repeat split; apply rooms_grow_refl].
  assert (Hg : rooms_grow (alter (joined (chat_id chat)) sid (sockets s1))
                 (sockets (with_joins sid (sd_receiverId data) chat s1))).
  { unfold with_joins. destruct (receiverSocket _ _); cbn;
      [apply rooms_grow_joined|apply rooms_grow_refl]. }
  destruct (with_joins_db sid (sd_receiverId data) chat s1) as (Hc & Hm & Hn & _ & Ho).
  destruct (oid_ok (sd_senderId data)).
  - unfold script_send_outcome, send_outcome, store.
    destruct (receiverSocketId s1 (sd_receiverId data)); cbn; rewrite Hc, Hm, Hn, Ho;
      repeat split; exact Hg.
  - unfold store. cbn. rewrite Hc, Hm, Hn, Ho. repeat split. exact Hg.
Qed.

(** X23 — the older [send_message] joins the sender only.  In the revision of
    script.js no socket but the sender's changes rooms: a receiver who is
    registered and connected but has not joined the chat's room is not
    among the recipients of [receive_message]; and [message_delivered] is
    addressed to the room named after the registered socket id, not to the
    chat's room. *)
Theorem script_send_message_joins_sender_only now sid data s :
  let '(s', out) := run (script_send_message now sid data) s in
  (forall r room, r <> sid ->
     (r ∈ recipients s' (ToRoom room) <-> r ∈ recipients s (ToRoom room))) /\
  (forall t mid, (t, message_delivered mid) ∈ out ->
     exists rsid, receiverSocketId s (sd_receiverId data) = Some rsid /\
                  t = ToRoom rsid).
Proof.
  assert (Hsame : forall s' : State,
            (forall r, r <> sid -> sockets s' !! r = sockets s !! r) ->
            forall r room, r <> sid ->
              (r ∈ recipients s' (ToRoom room) <-> r ∈ recipients s (ToRoom room))).
  { intros s' H r room Hr. rewrite <- !in_room_recipients. unfold in_room.
    rewrite (H r Hr). reflexivity. }
  assert (Hnil : forall t mid, (t, message_delivered mid) ∈ [send_failed sid] ->
            exists rsid, receiverSocketId s (sd_receiverId data) = Some rsid /\
                         t = ToRoom rsid).
  { intros t mid H. apply list_elem_of_singleton in H. discriminate. }
  rewrite script_send_message_run.
  destruct (sd_text data) as [|body|].
  1,3: split; [apply Hsame; reflexivity|];
       first [exact Hnil | intros t mid H; apply elem_of_nil in H; destruct H].
  destruct (trim body).
  { split; [apply Hsame; reflexivity|].
    intros t mid H; apply elem_of_nil in H; destruct H. }
  destruct (resolve_chat data s) as [[r0 s1] o1] eqn:Hr.
  destruct (resolve_chat_cases _ _ _ _ _ Hr) as [_ Hcase].
  destruct (resolved_sockets _ _ _ _ Hcase) as (Hso & Hon & _).
  destruct r0 as [chat|].
  2:{ split; [apply Hsame; intros; rewrite Hso; reflexivity|exact Hnil]. }
  assert (Hjoin : forall r, r <> sid ->
            alter (joined (chat_id chat)) sid (sockets s1) !! r = sockets s !! r).
  { intros r Hne. rewrite lookup_alter_ne by congruence. rewrite Hso. reflexivity. }
  destruct (oid_ok (sd_senderId data)).
  2:{ split; [apply Hsame; exact Hjoin|exact Hnil]. }
  unfold script_send_outcome.
  assert (Hrs : receiverSocketId s1 (sd_receiverId data) =
                receiverSocketId s (sd_receiverId data))
    by (unfold receiverSocketId; rewrite Hon; reflexivity).
  rewrite Hrs.
  destruct (receiverSocketId s (sd_receiverId data)) as [rsid|];
    (split; [apply Hsame; exact Hjoin|]); intros t mid H;
    repeat (apply elem_of_cons in H; destruct H as [H|H]);
    try discriminate; try (apply elem_of_nil in H; destruct H).
  injection H as -> _. eauto.
Qed.

(** X24 — the two [join_chat] revisions.  The [join_chat] of script.js and
    the latest one resolve or create the same chat and leave the same
    store and registry; the older one sends the sender the same
    [chat_history] and nothing else: no [chat_joined], nothing to the
    receiver, no [error]. *)
Theorem join_chat_revisions_agree sid data s :
  let '(s1, o1) := run (script_join_chat sid data) s in
  let '(s2, o2) := run (join_chat sid data) s in
  store s1 = store s2 /\ onlineUsers s1 = onlineUsers s2 /\
  rooms_grow (sockets s1) (sockets s2) /\
  (length o1 <= 1)%nat /\
  forall e, e ∈ o1 <->
    e ∈ o2 /\ exists msgs, e = (ToSocket sid, chat_history msgs).
Proof.
  rewrite script_join_chat_run, join_chat_run.
  destruct (resolve_or_create _ _ s) as [[[c|] s1] o1].
  - destruct (with_joins_db sid (jd_receiverId data) c s1) as (Hc & Hm & Hn & _ & Ho).
    unfold store. cbn zeta. rewrite Hc, Hm, Hn, Ho.
    split; [reflexivity|]. split; [reflexivity|]. split.
    { unfold with_joins. destruct (receiverSocket _ _); cbn;
        [apply rooms_grow_joined|apply rooms_grow_refl]. }
    split; [cbn; lia|]. intros e. rewrite list_elem_of_singleton. split.
    + intros ->. split; [|eauto]. apply elem_of_app. left. right. left.
    + intros [Hin (msgs & ->)]. apply elem_of_app in Hin. destruct Hin as [H|H].
      * repeat (apply elem_of_cons in H; destruct H as [H|H]);
          try discriminate; try (apply elem_of_nil in H; destruct H).
        exact H.
      * destruct (receiverSocket _ _) as [r|]; [|apply elem_of_nil in H; destruct H].
        repeat (apply elem_of_cons in H; destruct H as [H|H]);
          try discriminate; try (apply elem_of_nil in H; destruct H).
        injection H as _ ->. reflexivity.
  - split; [reflexivity|]. split; [reflexivity|]. split; [apply rooms_grow_refl|].
    split; [cbn; lia|]. intros e. split.
    + intros H. apply elem_of_nil in H. destruct H.
    + intros [H (msgs & ->)]. apply list_elem_of_singleton in H. discriminate.
Qed.

(** *** Typing signals *)

(** X25 — typing reaches the other end only.  After a [join_chat] that found
    the receiver's registered socket connected, a [typing] signal of the
    caller for the chat just joined changes nothing, is one [user_typing]
    event, and is received by the receiver's socket but not by the caller's
    own; [stop_typing] likewise. *)
Theorem typing_reaches_the_other_end sid sk a b r u s :
  sockets s !! sid = Some sk ->
  oid_ok a = true -> oid_ok b = true ->
  receiverSocket s b = Some r -> r <> sid ->
  let '(s1, o1) := run (join_chat sid (mkJoin a b)) s in
  exists cid, (ToSocket sid, chat_joined cid) ∈ o1 /\
    (let '(s2, o2) := run (typing sid (mkTyping cid u)) s1 in
     s2 = s1 /\ exists t, o2 = [(t, user_typing u)] /\
       r ∈ recipients s1 t /\ sid ∉ recipients s1 t) /\
    (let '(s2, o2) := run (stop_typing sid (mkTyping cid u)) s1 in
     s2 = s1 /\ exists t, o2 = [(t, user_stopped_typing u)] /\
       r ∈ recipients s1 t /\ sid ∉ recipients s1 t).
Proof.
  intros Hsk Ha Hb Hr Hne. rewrite join_chat_run. cbn [jd_senderId jd_receiverId].
  destruct (resolve_or_create a b s) as [[[c|] s1] o1] eqn:Hres.
  2:{ rewrite resolve_or_create_eq, Ha, Hb in Hres. cbn in Hres.
      destruct (find _ _); discriminate. }
  destruct (resolve_or_create_some _ _ _ _ _ _ Hres) as (Hso & Hon & _).
  cbn zeta. exists (chat_id c). split; [apply elem_of_app; left; left|].
  assert (Hin : r ∈ recipients (with_joins sid b c s1) (ToRoom (chat_id c))).
  { apply in_room_recipients, with_joins_receiver.
    rewrite (receiverSocket_frame s s1 _ Hso Hon). exact Hr. }
  assert (Hrec : r ∈ recipients (with_joins sid b c s1) (ToRoomExcept (chat_id c) sid) /\
                 sid ∉ recipients (with_joins sid b c s1) (ToRoomExcept (chat_id c) sid)).
  { cbn [recipients] in *. split.
    - apply elem_of_difference. split; [exact Hin|].
      intros H%elem_of_singleton. congruence.
    - intros [_ H]%elem_of_difference. apply H, elem_of_singleton. reflexivity. }
  unfold run, typing, stop_typing, emit. cbn [td_chatId td_userId].
  split; (split; [reflexivity|]); eexists; (split; [reflexivity|]); exact Hrec.
Qed.

(** *** Overlapping calls *)

(** X26 — overlapping calls split the pair.  Two resolve-or-create calls for
    one pair without a chat, scheduled so that both run [findOne] before
    either runs [create], append two chats for the pair; with a driver that
    never repeats an [_id] the two callers hold different chat ids, and the
    store no longer has one chat per pair. *)
Theorem overlapping_calls_split_the_pair a b s :
  driver_ok ->
  oid_ok a && oid_ok b = true ->
  find (has_all (oid_str a) (oid_str b)) (chats s) = None ->
  let '(s', calls) := run_schedule s [start a b; start b a] [0; 1; 0; 1]%nat in
  length (chats s') = S (S (length (chats s))) /\
  ~ pairs_unique (chats s') /\
  exists c1 c2, call_pc <$> calls = [Resolved c1; Resolved c2] /\
    c1 ∈ chats s' /\ c2 ∈ chats s' /\ chat_id c1 <> chat_id c2.
Proof.
  intros Hinj Hok Hnone. rewrite (overlapping_calls_create_twice a b s Hok Hnone).
  cbn [chats]. split; [rewrite length_app; cbn; lia|]. split.
  - intros Hu.
    specialize (Hu (length (chats s)) (S (length (chats s)))
                  (mkChat (new_oid (nextOid s)) [oid_str a; oid_str b] None)
                  (mkChat (new_oid (S (nextOid s))) [oid_str b; oid_str a] None)).
    assert (length (chats s) = S (length (chats s))); [|lia].
    apply Hu.
    + rewrite lookup_app_r by lia. rewrite Nat.sub_diag. reflexivity.
    + rewrite lookup_app_r by lia.
      replace (S (length (chats s)) - length (chats s))%nat with 1%nat by lia.
      reflexivity.
    + intros x. cbn. rewrite !elem_of_cons, !elem_of_nil. tauto.
  - eexists _, _. split; [reflexivity|]. split; [|split].
    + apply elem_of_app. right. left.
    + apply elem_of_app. right. right. left.
    + cbn. intros E. apply Hinj in E. lia.
Qed.

(** ** Handlers that overlap: the link with the handlers run in one go *)

Lemma mark_as_read_proc_finish sid data s :
  run (p ← mark_as_read_proc sid data; finish 7 p) s = run (mark_as_read sid data) s.
Proof.
  rewrite mark_as_read_eq.
  unfold run, mark_as_read_proc, await, guarded, finish. unfold_db. unfold_M.
  destruct (oid_ok (rd_messageId data)); [|reflexivity].
  cbn. destruct (find_message _ _) as [m|]; [|reflexivity].
  destruct (includes _ _); [reflexivity|].
  destruct (oid_ok (rd_userId data)); reflexivity.
Qed.

Lemma accept_chat_proc_finish sid data s :
  run (p ← accept_chat_proc sid data; finish 7 p) s = run (accept_chat sid data) s.
Proof.
  rewrite accept_chat_run.
  unfold run, accept_chat_proc, await, guarded, finish. unfold_db. unfold_M.
  cbn. destruct (oid_ok (ad_chatId data)); reflexivity.
Qed.

Lemma join_chat_proc_finish sid data s :
  run (p ← join_chat_proc sid data; finish 7 p) s = run (join_chat sid data) s.
Proof.
  rewrite join_chat_run, resolve_or_create_eq.
  unfold run, join_chat_proc, await, guarded, finish, created, with_chat, with_joins.
  unfold_db. unfold_M.
  destruct (oid_ok (jd_senderId data)); [|reflexivity].
  destruct (oid_ok (jd_receiverId data)); [|reflexivity].
  cbn. destruct (find _ _) as [c|]; cbn.
  - destruct (receiverSocket _ _); reflexivity.
  - destruct (receiverSocket _ _); reflexivity.
Qed.

Lemma send_message_proc_finish now sid data s :
  run (p ← send_message_proc now sid data; finish 7 p) s =
  run (send_message now sid data) s.
Proof.
  rewrite send_message_run.
  unfold run, send_message_proc, await, guarded, finish.
  destruct (sd_text data) as [|body|]; try reflexivity.
  destruct (trim body) as [|c0 r0] eqn:Eb; [reflexivity|].
  destruct (sd_chatId data) as [cid|] eqn:Hc; [destruct (truthy cid) eqn:Ht|].
  - rewrite (resolve_chat_by_id _ _ _ Hc Ht).
    unfold send_outcome, with_joins, sent_message, mark_delivered, created, with_chat.
    rewrite Eb. unfold_db. unfold_M.
    destruct (oid_ok cid); [|reflexivity].
    cbn -[trim]. destruct (find _ _) as [c|].
    + destruct (oid_ok (sd_senderId data)).
      * cbn -[trim]. unfold receiverSocket, receiverSocketId. cbn -[trim].
        destruct (onlineUsers s !! sd_receiverId data) as [r|]; [|reflexivity].
        destruct (truthy r); [|reflexivity].
        destruct (bool_decide _); reflexivity.
      * cbn -[trim]. destruct (receiverSocket _ _); reflexivity.
    + destruct (oid_ok (sd_senderId data)); [|reflexivity].
      destruct (oid_ok (sd_receiverId data)); [|reflexivity].
      cbn -[trim]. unfold receiverSocket, receiverSocketId. cbn -[trim].
      destruct (onlineUsers s !! sd_receiverId data) as [r|]; [|reflexivity].
      destruct (truthy r); [|reflexivity].
      destruct (bool_decide _); reflexivity.
  - rewrite resolve_chat_by_pair by (unfold by_pair; rewrite Hc, Ht; reflexivity).
    rewrite resolve_or_create_eq.
    unfold send_outcome, with_joins, sent_message, mark_delivered, created, with_chat.
    rewrite Eb. unfold_db. unfold_M.
    destruct (oid_ok (sd_senderId data)); [|reflexivity].
    destruct (oid_ok (sd_receiverId data)); [|reflexivity].
    cbn -[trim]. destruct (find _ _) as [c|];
      cbn -[trim]; unfold receiverSocket, receiverSocketId; cbn -[trim];
      (destruct (onlineUsers s !! sd_receiverId data) as [r|]; [|reflexivity]);
      (destruct (truthy r); [|reflexivity]);
      destruct (bool_decide _); reflexivity.
  - rewrite resolve_chat_by_pair by (unfold by_pair; rewrite Hc; reflexivity).
    rewrite resolve_or_create_eq.
    unfold send_outcome, with_joins, sent_message, mark_delivered, created, with_chat.
    rewrite Eb. unfold_db. unfold_M.
    destruct (oid_ok (sd_senderId data)); [|reflexivity].
    destruct (oid_ok (sd_receiverId data)); [|reflexivity].
    cbn -[trim]. destruct (find _ _) as [c|];
      cbn -[trim]; unfold receiverSocket, receiverSocketId; cbn -[trim];
      (destruct (onlineUsers s !! sd_receiverId data) as [r|]; [|reflexivity]);
      (destruct (truthy r); [|reflexivity]);
      destruct (bool_decide _); reflexivity.
Qed.

(** An event whose handler runs from its arrival to its end with nothing in
    between is handled as [step] handles it. *)
Lemma arrive_finish s e : run (p ← arrive e; finish 7 p) s = step s e.
Proof.
  rewrite step_eq.
  assert (Hget : forall (f : State -> M Proc) (g : Proc -> M unit),
            run (x ← (s0 ← get; f s0); g x) s = run (x ← f s; g x) s).
  { intros f g. unfold run, mbind, M_bind, bind, get.
    destruct (f s s) as [[[a|] s1] o1]; cbn; [|reflexivity].
    destruct (g a s1) as [[r s2] o2]. reflexivity. }
  unfold arrive. rewrite Hget.
  destruct (sockets s !! event_socket e) as [sk|], e;
    try apply join_chat_proc_finish; try apply accept_chat_proc_finish;
    try apply send_message_proc_finish; try apply mark_as_read_proc_finish;
    try reflexivity.
  unfold run. unfold mbind, M_bind, bind, modify, ret. cbn.
  destruct (disconnect sk _) as [[[[]|] s1] o1]; cbn;
    rewrite ?app_nil_r; reflexivity.
Qed.

(** Resuming one handler again and again, with no other move in between,
    is [finish]. *)
Lemma moves_resume n s ps i p :
  ps !! i = Some p ->
  exists ps', moves (s, ps) (repeat (Resume i) n) =
                (((run (finish n p) s).1, ps'), (run (finish n p) s).2).
Proof.
  revert s ps p. induction n as [|n IH]; intros s ps p Hp.
  - exists ps. destruct p; reflexivity.
  - cbn [repeat moves move]. rewrite Hp. destruct p as [|k].
    + destruct (IH s ps Done Hp) as (ps' & ->). exists ps'.
      destruct n; reflexivity.
    + assert (Hi : (i < length ps)%nat) by (eapply lookup_lt_Some; exact Hp).
      unfold run. cbn [finish]. unfold mbind, M_bind, bind.
      destruct (k s) as [[[p'|] s'] o].
      * destruct (IH s' (<[i:=p']> ps) p') as (ps' & ->).
        { apply list_lookup_insert_eq. exact Hi. }
        exists ps'. unfold run. destruct (finish n p' s') as [[r s2] o2]. reflexivity.
      * destruct (IH s' (<[i:=Done]> ps) Done) as (ps' & ->).
        { apply list_lookup_insert_eq. exact Hi. }
        exists ps'. destruct n; cbn; rewrite app_nil_r; reflexivity.
Qed.

(** The handlers run one after the other are the runs of the event loop in
    which every handler is resumed to its end before the next event
    arrives: whatever handlers are suspended, an event that arrives and
    whose handler is then resumed seven times in a row changes the state
    and emits as [step] says. *)
Lemma moves_alone s ps e :
  exists ps', moves (s, ps) (Arrive e :: repeat (Resume (length ps)) 7) =
                (((step s e).1, ps'), (step s e).2).
Proof.
  rewrite <- arrive_finish. cbn [moves move]. unfold run, mbind, M_bind, bind.
  destruct (arrive e s) as [[[p|] s1] o1].
  - destruct (moves_resume 7 s1 (ps ++ [p]) (length ps) p) as (ps' & ->).
    { rewrite lookup_app_r by lia. rewrite Nat.sub_diag. reflexivity. }
    exists ps'. unfold run. destruct (finish 7 p s1) as [[r s2] o2]. reflexivity.
  - exists ps.
    assert (Hnone : forall n, moves (s1, ps) (repeat (Resume (length ps)) n) = ((s1, ps), [])).
    { induction n as [|n IH]; [reflexivity|]. cbn [repeat moves move].
      rewrite lookup_ge_None_2 by lia. rewrite IH. reflexivity. }
    rewrite (Hnone 7%nat). rewrite app_nil_r. reflexivity.
Qed.

Lemma moves_app w mvs1 mvs2 :
  moves w (mvs1 ++ mvs2) =
    let '(w1, o1) := moves w mvs1 in
    let '(w2, o2) := moves w1 mvs2 in
    (w2, o1 ++ o2).
Proof.
  revert w. induction mvs1 as [|mv r IH]; intros w.
  - cbn. destruct (moves w mvs2) as [w2 o2]. reflexivity.
  - cbn [app moves]. destruct (move w mv) as [w1 o1]. rewrite IH.
    destruct (moves w1 r) as [w2 o2]. destruct (moves w2 mvs2) as [w3 o3].
    rewrite app_assoc. reflexivity.
Qed.

Lemma arrivals_app mvs1 mvs2 :
  arrivals (mvs1 ++ mvs2) = arrivals mvs1 ++ arrivals mvs2.
Proof. apply omap_app. Qed.

Lemma arrivals_resumes i n : arrivals (repeat (Resume i) n) = [].
Proof. induction n as [|n IH]; [reflexivity|exact IH]. Qed.

(** Every run of [steps] is a run of the event loop: for the same events,
    arriving in the same order, there is a schedule that ends in the same
    state with the same events emitted, whatever handlers were suspended
    at the start. *)
Lemma steps_are_moves s ps es :
  exists mvs ps', arrivals mvs = es /\
    moves (s, ps) mvs = (((steps s es).1, ps'), (steps s es).2).
Proof.
  revert s ps. induction es as [|e r IH]; intros s ps.
  - exists [], ps. split; reflexivity.
  - destruct (moves_alone s ps e) as (ps1 & H1).
    destruct (IH (step s e).1 ps1) as (mvs & ps' & Ha & H2).
    exists ((Arrive e :: repeat (Resume (length ps)) 7) ++ mvs), ps'. split.
    + change (e :: arrivals (repeat (Resume (length ps)) 7 ++ mvs) = e :: r).
      rewrite arrivals_app, arrivals_resumes, Ha. reflexivity.
    + rewrite moves_app, H1, H2. cbn [steps].
      destruct (step s e) as [s1 o1]. cbn [fst snd].
      destruct (steps s1 r) as [s2 o2]. reflexivity.
Qed.

End Server.

(** ** The concrete driver is a driver *)

Lemma oid_value_zeros k s : oid_value (zeros k s) = oid_value s.
Proof.
  induction k as [|k IH]; [reflexivity|].
  rewrite <- IH. unfold oid_value. cbn [zeros NilEmpty.uint_of_string].
  destruct (NilEmpty.uint_of_string (zeros k s)) as [u|]; reflexivity.
Qed.

Lemma oid_value_of_nat n : oid_value (oid_of_nat n) = Some n.
Proof.
  unfold oid_of_nat. rewrite oid_value_zeros. unfold oid_value.
  rewrite NilEmpty.usu. cbn. f_equal. apply Unsigned.of_to.
Qed.

Lemma oid_of_nat_inj : driver_ok oid_of_nat.
Proof.
  intros i j E. apply (f_equal oid_value) in E.
  rewrite !oid_value_of_nat in E. congruence.
Qed.

(** ** The scenarios, run *)

(** The server over the concrete driver. *)
Abbreviation handle := (step hex_oid lower_hex oid_of_nat).
Abbreviation handle_all := (steps hex_oid lower_hex oid_of_nat).

Example alice_writes_store :
  let s := (handle_all (initial directory) alice_writes).1 in
  chats s = [mkChat chat0 [alice; bob] (Some msg1)] /\
  messages s = [mkMessage msg1 chat0 alice hi sent [alice] 10] /\
  nextOid s = 2%nat.
Proof. vm_compute. auto. Qed.

(** *** Blank text *)

(** C4 on a body of two spaces. *)
Lemma C4_witness :
  run (send_message hex_oid lower_hex oid_of_nat 11 "s1"
         (mkSend alice bob (TextStr (units "  ")) None))
      (handle_all (initial directory) alice_writes).1 =
  ((handle_all (initial directory) alice_writes).1, []).
Proof.
  apply (C4_blank_text_is_dropped hex_oid lower_hex oid_of_nat 11 "s1"
           (mkSend alice bob (TextStr (units "  ")) None) (units "  "));
    reflexivity.
Defined.

(** *** Read receipts *)

(** C10 on Carol's receipt for the message Alice sent to Bob. *)
Lemma C10_witness :
  let s := (handle_all (initial directory) alice_writes).1 in
  let '(s', out) := run (mark_as_read hex_oid lower_hex "s3" carol_reads) s in
  find_message msg1 (messages s') =
    Some (mkMessage msg1 chat0 alice hi read [alice; carol] 10) /\
  out = [(ToRoom chat0, message_read msg1 carol)] /\
  chats s' = chats s /\
  (forall cs, run (mark_as_read hex_oid lower_hex "s3" carol_reads)
                (set_chats (fun _ => cs) s) = (set_chats (fun _ => cs) s', out)).
Proof.
  apply (C10_mark_as_read_unchecked hex_oid lower_hex "s3" carol_reads
           (handle_all (initial directory) alice_writes).1
           (mkMessage msg1 chat0 alice hi sent [alice] 10)).
  - reflexivity.
  - vm_compute. reflexivity.
  - vm_compute. intros H. apply list_elem_of_singleton in H. discriminate H.
  - reflexivity.
Defined.

(** Carol's receipt, sent a second time in the spelling the store holds,
    is a no-op. *)
Lemma repeated_receipt_example :
  let s := (run (mark_as_read hex_oid lower_hex "s3" carol_reads)
              (handle_all (initial directory) alice_writes).1).1 in
  run (mark_as_read hex_oid lower_hex "s3" carol_reads) s = (s, []).
Proof.
  apply (proj1 (mark_as_read_repeated hex_oid lower_hex "s3" "s3" carol_reads
    (run (mark_as_read hex_oid lower_hex "s3" carol_reads)
       (handle_all (initial directory) alice_writes).1).1)
    (mkMessage msg1 chat0 alice hi read [alice; carol] 10)).
  - vm_compute. reflexivity.
  - vm_compute. right. left.
Defined.

(** C6, the claim fails — Bob's client spells his id in upper case.  His
    receipt for Alice's message stores him in [readBy], in lower case as
    every ObjectId prints.  The same receipt sent again looks for the
    upper-case spelling among the stored ids, does not find it, appends Bob
    a second time and broadcasts [message_read] again: the second call is
    no no-op although the reader is present, and [readBy] is not what it
    was after the first call. *)
Lemma C6_repeated_receipt_is_stored_twice :
  let s := (handle_all (initial directory) bob_arrives).1 in
  let '(s1, o1) := handle s (MarkAsRead "s2" bob_reads_upper) in
  let '(s2, o2) := handle s1 (MarkAsRead "s2" bob_reads_upper) in
  hex_oid bob_upper = true /\ lower_hex bob_upper = bob /\
  messages s = [mkMessage msg1 chat0 alice hi sent [alice] 10] /\
  messages s1 = [mkMessage msg1 chat0 alice hi read [alice; bob] 10] /\
  o1 = [(ToRoom chat0, message_read msg1 bob_upper)] /\
  messages s2 = [mkMessage msg1 chat0 alice hi read [alice; bob; bob] 10] /\
  o2 = [(ToRoom chat0, message_read msg1 bob_upper)].
Proof. vm_compute. auto 10. Qed.

(** The same happens in lower case when the second receipt arrives before
    the first has saved: both handlers load the message without Bob in
    [readBy], both push him and both broadcast. *)
Example overlapping_receipts_both_land :
  let s := (handle_all (initial directory) bob_arrives).1 in
  let '(w, out) := moves hex_oid lower_hex oid_of_nat (s, []) receipts_overlap in
  messages w.1 = [mkMessage msg1 chat0 alice hi read [alice; bob; bob] 10] /\
  w.2 = [Done; Done] /\
  out = [(ToRoom chat0, message_read msg1 bob);
         (ToRoom chat0, message_read msg1 bob)].
Proof. vm_compute. auto. Qed.

(** *** Presence with two sockets for one identity *)

(** C9, the claim as stated fails — Alice still has the live socket [s2],
    bound to her identity, when [s1] disconnects; yet her presence entry is
    removed and [offline] is broadcast. *)
Lemma C9_second_device_forgotten :
  let s := (handle_all (initial directory) two_devices).1 in
  let '(s', out) := handle s (Disconnect "s1") in
  onlineUsers s !! alice = Some "s2" /\
  userId <$> (sockets s' !! "s2") = Some (Some alice) /\
  onlineUsers s' !! alice = None /\
  out = [(ToAll, user_status alice false)].
Proof. vm_compute. auto. Qed.

(** C9, as amended, on Alice's first socket. *)
Lemma C9_witness :
  let s := (handle_all (initial directory) two_devices).1 in
  let '(s', out) := handle s (Disconnect "s1") in
  onlineUsers s' = delete alice (onlineUsers s) /\
  sockets s' = delete "s1" (sockets s) /\
  out = [(ToAll, user_status alice false)] /\
  chats s' = chats s /\ messages s' = messages s.
Proof.
  apply (C9_disconnect_clears_presence hex_oid lower_hex oid_of_nat
           (handle_all (initial directory) two_devices).1 "s1"
           (mkSocket (Some alice) {[ "s1" ]}) alice).
  - vm_compute. reflexivity.
  - reflexivity.
  - reflexivity.
Defined.

(** *** An outsider writes into a chat *)



(** *** A chat id that names nothing *)



(** *** Delivery *)

(** A message from Alice to Bob, both connected. *)
Lemma receiver_registered_example :
  let s := (handle_all (initial directory) both_online).1 in
  let '(s', out) := run (send_message hex_oid lower_hex oid_of_nat 10 "s1" alice_to_bob) s in
  exists m,
    messages s' = messages s ++ [m] /\
    senderId m = alice /\ readBy m = [alice] /\
    match receiverSocketId s bob with
    | Some _ =>
        status m = delivered /\
        (ToRoom (chatId m), message_delivered (msg_id m)) ∈ out
    | None =>
        status m = sent /\
        forallb (fun e => negb (is_message_delivered e)) out = true
    end.
Proof.
  apply (delivered_when_receiver_registered hex_oid lower_hex oid_of_nat 10 "s1"
           alice_to_bob (handle_all (initial directory) both_online).1).
  - exact oid_of_nat_inj.
  - intros m Hm. vm_compute in Hm. apply elem_of_nil in Hm. destruct Hm.
  - vm_compute. reflexivity.
Defined.

(** Bob was registered, so the stored message is [delivered]. *)
Example bob_online_delivered :
  let s := (handle_all (initial directory) both_online).1 in
  let '(s', out) := handle s (SendMessage 10 "s1" alice_to_bob) in
  receiverSocketId s bob = Some "s2" /\
  status <$> messages s' = [delivered] /\
  snd <$> out =
    [ receive_message (Some (mkPopulated
        (mkMessage msg1 chat0 alice hi sent [alice] 10)
        (Some (mkUser alice "Alice" "a.png"))));
      message_delivered msg1;
      user_stopped_typing alice ].
Proof. vm_compute. auto. Qed.

(** C5, the claim fails — Bob has no live connection: the socket that
    announced him has disconnected and only Alice's socket is left.  The
    presence map still holds the entry that socket left behind; the lookup
    of the live socket, which the handler does a few lines earlier before
    joining the receiver to the room, finds none.  The delivery step tests
    the map entry alone, and Alice's message to Bob is stored as
    [delivered], with [message_delivered] emitted, instead of staying
    [sent]. *)
Lemma C5_departed_receiver_marked_delivered :
  let s := (handle_all (initial directory) bob_left_behind).1 in
  let '(s', out) := handle s (SendMessage 10 "s1" alice_to_bob) in
  elements (dom (sockets s)) = ["s1"] /\
  userId <$> sockets s !! "s1" = Some (Some alice) /\
  onlineUsers s !! bob = Some "s2" /\
  receiverSocket s bob = None /\
  messages s' = [mkMessage msg1 chat0 alice hi delivered [alice] 10] /\
  fst <$> out = [ToRoom chat0; ToRoom chat0; ToRoomExcept chat0 "s1"] /\
  existsb is_message_delivered out = true.
Proof. vm_compute. auto 10. Qed.

(** *** Status over a whole exchange *)



Example bob_catches_up_store :
  let s := (handle_all (initial directory) alice_writes).1 in
  (fun m => (status m, readBy m)) <$> messages (handle_all s bob_catches_up).1 =
    [ (read, [alice; bob]); (delivered, [bob]) ].
Proof. vm_compute. reflexivity. Qed.

(** *** Two resolutions at once *)


(** The same two resolutions, one after the other, share one chat. *)
Example C1_sequential_calls_share_a_chat :
  let '(s, ts) := run_schedule hex_oid lower_hex oid_of_nat (initial directory)
                    both_open [0; 0; 1; 1]%nat in
  chats s = [mkChat chat0 [alice; bob] None] /\
  call_pc <$> ts = [Resolved (mkChat chat0 [alice; bob] None);
                 Resolved (mkChat chat0 [alice; bob] None)].
Proof. vm_compute. auto. Qed.


(** A [send_message] that names a well-formed id no chat carries creates a
    chat for its pair without looking the pair up: after it the pair of
    Alice and Bob has two chats, with the handlers run in turn. *)
Example unknown_chat_id_splits_the_pair :
  let s := (handle_all (initial directory) alice_writes).1 in
  let s' := (handle s (SendMessage 20 "s1" alice_to_ghost)).1 in
  participants <$> chats s = [[alice; bob]] /\
  participants <$> chats s' = [[alice; bob]; [alice; bob]] /\
  ~ lookups_succeed hex_oid lower_hex oid_of_nat s [SendMessage 20 "s1" alice_to_ghost].
Proof.
  split; [vm_compute; reflexivity|]. split; [vm_compute; reflexivity|].
  intros [[H|(cid & Hc & [H|H])] _].
  - discriminate H.
  - injection Hc as <-. discriminate H.
  - injection Hc as <-. apply H. vm_compute. reflexivity.
Qed.

(** *** A conversation of fifty-one messages *)

(** C2, the claim as stated fails — Alice has sent 51 messages, at times
    1 to 51.  The [chat_history] she gets on [join_chat] holds the messages
    of times 1 to 50; the most recent 50 are those of times 2 to 51. *)
Lemma C2_history_drops_the_newest :
  let s := (handle_all (initial directory) long_talk).1 in
  let h := history s chat0 in
  length (conversation s chat0) = 51%nat /\
  (handle s (JoinChat "s1" (mkJoin alice bob))).2 =
    [(ToSocket "s1", chat_joined chat0); (ToSocket "s1", chat_history h)] /\
  createdAt <$> (pm_doc <$> h) = Z.of_nat <$> seq 1 50 /\
  createdAt <$> most_recent 50 (conversation s chat0) = Z.of_nat <$> seq 2 50 /\
  pm_doc <$> h <> most_recent 50 (conversation s chat0).
Proof.
  cbn zeta.
  assert (H1 : createdAt <$> (pm_doc <$>
                 history (handle_all (initial directory) long_talk).1 chat0) =
               Z.of_nat <$> seq 1 50) by (vm_compute; reflexivity).
  assert (H2 : createdAt <$> most_recent 50
                 (conversation (handle_all (initial directory) long_talk).1 chat0) =
               Z.of_nat <$> seq 2 50) by (vm_compute; reflexivity).
  split; [vm_compute; reflexivity|]. split; [vm_compute; reflexivity|].
  split; [exact H1|]. split; [exact H2|].
  intros E. rewrite E, H2 in H1. vm_compute in H1. discriminate H1.
Qed.

(** ** The further properties on the scenarios *)

(** *** Store invariants *)

(** X1 over Alice's message and Bob's answer. *)
Lemma store_references_witness :
  refs_ok (handle_all (initial directory) (alice_writes ++ bob_catches_up)).1.
Proof.
  apply (store_references_stay_valid hex_oid lower_hex oid_of_nat (initial directory)).
  split.
  - intros m Hm. cbn in Hm. apply elem_of_nil in Hm. destruct Hm.
  - intros c mid Hc. cbn in Hc. apply elem_of_nil in Hc. destruct Hc.
Defined.

Lemma stored_messages_witness :
  let s' := (handle_all (initial directory) (alice_writes ++ bob_catches_up)).1 in
  Forall message_ok (messages s') /\ Forall readers_unique (messages s').
Proof.
  destruct (stored_messages_stay_well_formed hex_oid lower_hex oid_of_nat
              (initial directory) (alice_writes ++ bob_catches_up)
              (List.Forall_nil _)) as [H1 H2].
  split; [exact H1|]. apply H2; [|exact (List.Forall_nil _)].
  vm_compute. repeat constructor.
Defined.

Lemma stored_chats_witness :
  let s' := (handle_all (initial directory) (alice_writes ++ bob_catches_up)).1 in
  Forall (chat_ok hex_oid lower_hex) (chats s') /\
  extends chat_le (chats (initial directory)) (chats s').
Proof.
  apply (stored_chats_stay_pairs hex_oid lower_hex oid_of_nat (initial directory)).
  exact (List.Forall_nil _).
Defined.

Lemma read_status_witness :
  Forall read_iff_acknowledged
    (messages (handle_all (initial directory) (alice_writes ++ bob_catches_up)).1).
Proof.
  apply (read_status_matches_receipts hex_oid lower_hex oid_of_nat (initial directory)).
  - exact oid_of_nat_inj.
  - intros m Hm. cbn in Hm. apply elem_of_nil in Hm. destruct Hm.
  - exact (List.Forall_nil _).
Defined.

(** *** Read receipts *)

(** Alice acknowledges her own message. *)
Lemma sender_receipt_witness :
  let s := (handle_all (initial directory) alice_writes).1 in
  run (mark_as_read hex_oid lower_hex "s1" (mkRead msg1 alice)) s = (s, []).
Proof.
  apply (sender_receipt_is_ignored hex_oid lower_hex "s1" msg1 alice_message
           (handle_all (initial directory) alice_writes).1).
  - assert (E : messages (handle_all (initial directory) alice_writes).1 = [alice_message])
      by (vm_compute; reflexivity).
    rewrite E. constructor; [|constructor].
    split; [vm_compute; discriminate|]. split; [vm_compute; reflexivity|].
    reflexivity.
  - vm_compute. reflexivity.
Defined.

(** Bob, then Carol, acknowledge Alice's message. *)
Lemma two_readers_witness :
  let s := (handle_all (initial directory) alice_writes).1 in
  let '(s1, out1) := run (mark_as_read hex_oid lower_hex "s2" (mkRead msg1 bob)) s in
  let '(s2, out2) := run (mark_as_read hex_oid lower_hex "s3" (mkRead msg1 carol)) s1 in
  (exists m2, find_message msg1 (messages s2) = Some m2 /\
     readBy m2 = [alice] ++ [bob; carol] /\ status m2 = read) /\
  out1 = [(ToRoom chat0, message_read msg1 bob)] /\
  out2 = [(ToRoom chat0, message_read msg1 carol)].
Proof.
  apply (two_readers_in_order hex_oid lower_hex "s2" "s3" msg1 bob carol alice_message
           (handle_all (initial directory) alice_writes).1).
  - vm_compute. reflexivity.
  - vm_compute. reflexivity.
  - vm_compute. reflexivity.
  - vm_compute. reflexivity.
  - intros H. apply list_elem_of_singleton in H. discriminate.
  - intros H. apply list_elem_of_singleton in H. discriminate.
  - discriminate.
Defined.

(** *** Rooms *)

(** Alice's socket stays in the room of her chat while Bob catches up. *)
Lemma subscriptions_witness :
  "s1" ∈ recipients
    (handle_all (handle_all (initial directory) alice_writes).1 bob_catches_up).1
    (ToRoom chat0).
Proof.
  apply (subscriptions_last_until_disconnect hex_oid lower_hex oid_of_nat
           (handle_all (initial directory) alice_writes).1 bob_catches_up chat0 "s1").
  - apply (bool_decide_unpack _). vm_compute. exact I.
  - intros H. unfold bob_catches_up in H.
    repeat (apply elem_of_cons in H; destruct H as [H|H]; [discriminate|]).
    apply elem_of_nil in H. exact H.
Defined.


(** Alice opens her chat with Bob while both are connected. *)
Lemma join_chat_subscribes_witness :
  let s := (handle_all (initial directory) both_online).1 in
  let '(s', out) := run (join_chat hex_oid lower_hex oid_of_nat "s1" (mkJoin alice bob)) s in
  exists c, c ∈ chats s' /\
    alice ∈ participants c /\ bob ∈ participants c /\
    messages s' = messages s /\
    "s1" ∈ recipients s' (ToRoom (chat_id c)) /\
    let mine := [(ToSocket "s1", chat_joined (chat_id c));
                 (ToSocket "s1", chat_history (history s (chat_id c)))] in
    match receiverSocket s bob with
    | Some r =>
        r ∈ recipients s' (ToRoom (chat_id c)) /\
        out = mine ++ [(ToSocket r, chat_joined (chat_id c));
                       (ToSocket r, chat_history (history s (chat_id c)))]
    | None => out = mine
    end.
Proof.
  apply (join_chat_subscribes_both_ends hex_oid lower_hex oid_of_nat "s1"
           (mkSocket (Some alice) {[ "s1" ]}) (mkJoin alice bob)
           (handle_all (initial directory) both_online).1).
  - vm_compute. reflexivity.
  - vm_compute. reflexivity.
  - vm_compute. reflexivity.
Defined.

(** A name is not an ObjectId. *)
Lemma join_chat_rejects_witness :
  let s := (handle_all (initial directory) both_online).1 in
  run (join_chat hex_oid lower_hex oid_of_nat "s1" (mkJoin "alice" bob)) s =
    (s, [join_failed "s1"]) /\
  run (script_join_chat hex_oid lower_hex oid_of_nat "s1" (mkJoin "alice" bob)) s = (s, []).
Proof.
  apply (join_chat_rejects_malformed_ids hex_oid lower_hex oid_of_nat "s1"
           (mkJoin "alice" bob) (handle_all (initial directory) both_online).1).
  vm_compute. reflexivity.
Defined.

(** Carol's socket names the chat of Alice and Bob. *)
Lemma accept_chat_witness :
  let s := (handle_all (initial directory) (alice_writes ++ [Connection "s3"])).1 in
  let '(s', out) := run (accept_chat hex_oid lower_hex "s3" (mkAccept chat0 carol)) s in
  "s3" ∈ recipients s' (ToRoom chat0) /\
  chats s' = chats s /\ messages s' = messages s /\
  onlineUsers s' = onlineUsers s /\
  out = (if hex_oid chat0
         then [(ToSocket "s3", chat_history (history s chat0))] else []) /\
  forall u' cs,
    run (accept_chat hex_oid lower_hex "s3" (mkAccept chat0 u')) (set_chats (fun _ => cs) s) =
      (set_chats (fun _ => cs) s', out).
Proof.
  apply (accept_chat_checks_nothing hex_oid lower_hex "s3" (mkSocket None {[ "s3" ]})
           chat0 carol
           (handle_all (initial directory) (alice_writes ++ [Connection "s3"])).1).
  vm_compute. reflexivity.
Defined.

(** *** Presence *)

Lemma presence_round_trip_witness :
  let s := (handle_all (initial directory) [Connection "s1"]).1 in
  let '(s1, o1) := handle s (UserOnline "s1" alice) in
  let '(s2, o2) := handle s1 (Disconnect "s1") in
  receiverSocketId s1 alice = Some "s1" /\
  (forall v, v <> alice -> receiverSocketId s1 v = receiverSocketId s v) /\
  onlineUsers s2 = onlineUsers s /\
  sockets s2 = delete "s1" (sockets s) /\
  chats s2 = chats s /\ messages s2 = messages s /\
  o1 = [(ToAll, user_status alice true)] /\
  o2 = [(ToAll, user_status alice false)].
Proof.
  apply (presence_round_trip hex_oid lower_hex oid_of_nat "s1" (mkSocket None {[ "s1" ]})
           alice (handle_all (initial directory) [Connection "s1"]).1).
  - vm_compute. reflexivity.
  - vm_compute. reflexivity.
  - reflexivity.
  - reflexivity.
Defined.


Lemma empty_identity_witness :
  let s := (handle_all (initial directory) [Connection "s2"]).1 in
  let '(s', out) := handle_all s [UserOnline "s2" ""; Disconnect "s2"] in
  onlineUsers s' !! "" = Some "s2" /\
  sockets s' !! "s2" = None /\
  out = [(ToAll, user_status "" true)].
Proof.
  apply (empty_identity_is_never_cleared hex_oid lower_hex oid_of_nat "s2"
           (mkSocket None {[ "s2" ]})
           (handle_all (initial directory) [Connection "s2"]).1).
  vm_compute. reflexivity.
Defined.

(** *** Sending *)

(** A sender id that is no ObjectId, with the id of Alice's chat. *)
Lemma failed_send_witness :
  let s := (handle_all (initial directory) (alice_writes ++ [Connection "s3"])).1 in
  let '(s', out) := run (send_message hex_oid lower_hex oid_of_nat 20 "s3" mallory_writes) s in
  out = [send_failed "s3"] /\
  chats s' = chats s /\ messages s' = messages s /\
  "s3" ∈ recipients s' (ToRoom chat0).
Proof.
  apply (failed_send_still_joins hex_oid lower_hex oid_of_nat 20 "s3"
           (mkSocket None {[ "s3" ]}) mallory_writes hi chat0 alice_bob_chat
           (handle_all (initial directory) (alice_writes ++ [Connection "s3"])).1).
  - vm_compute. reflexivity.
  - reflexivity.
  - vm_compute. discriminate.
  - reflexivity.
  - reflexivity.
  - vm_compute. reflexivity.
  - vm_compute. reflexivity.
  - vm_compute. reflexivity.
Defined.





(** *** Typing signals *)

Lemma typing_witness :
  let s := (handle_all (initial directory) both_online).1 in
  let '(s1, o1) := run (join_chat hex_oid lower_hex oid_of_nat "s1" (mkJoin alice bob)) s in
  exists cid, (ToSocket "s1", chat_joined cid) ∈ o1 /\
    (let '(s2, o2) := run (typing "s1" (mkTyping cid alice)) s1 in
     s2 = s1 /\ exists t, o2 = [(t, user_typing alice)] /\
       "s2" ∈ recipients s1 t /\ "s1" ∉ recipients s1 t) /\
    (let '(s2, o2) := run (stop_typing "s1" (mkTyping cid alice)) s1 in
     s2 = s1 /\ exists t, o2 = [(t, user_stopped_typing alice)] /\
       "s2" ∈ recipients s1 t /\ "s1" ∉ recipients s1 t).
Proof.
  apply (typing_reaches_the_other_end hex_oid lower_hex oid_of_nat "s1"
           (mkSocket (Some alice) {[ "s1" ]}) alice bob "s2" alice
           (handle_all (initial directory) both_online).1).
  - vm_compute. reflexivity.
  - vm_compute. reflexivity.
  - vm_compute. reflexivity.
  - vm_compute. reflexivity.
  - discriminate.
Defined.

(** *** Overlapping calls *)

Lemma overlapping_calls_witness :
  let '(s', calls) :=
    run_schedule hex_oid lower_hex oid_of_nat (initial directory) both_open
      [0; 1; 0; 1]%nat in
  length (chats s') = S (S (length (chats (initial directory)))) /\
  ~ pairs_unique (chats s') /\
  exists c1 c2, call_pc <$> calls = [Resolved c1; Resolved c2] /\
    c1 ∈ chats s' /\ c2 ∈ chats s' /\ chat_id c1 <> chat_id c2.
Proof.
  apply (overlapping_calls_split_the_pair hex_oid lower_hex oid_of_nat alice bob
           (initial directory)).
  - exact oid_of_nat_inj.
  - vm_compute. reflexivity.
  - reflexivity.
Defined.
